(** * Chainlink: option handling and frame conversion

    A shallow embedding of [chainlink.py], the driver script of a
    concatenative-synthesis tool, and the properties of its option
    processing ([process_options], [check_options]) and of its
    millisecond-to-frame conversion ([convert_ms_to_frames]).

    Python semantics assumed throughout: CPython 3 on a POSIX system
    ([os.linesep] is a line feed, [os.path] is [posixpath], floats are
    IEEE 754 binary64, an uncaught exception ends the interpreter with
    status 1). *)

From Stdlib Require Import ZArith List String Ascii Bool Lia.
From Stdlib Require Import Floats.SpecFloat.
From stdpp Require Import base option list gmap strings.
Import ListNotations.

Local Open Scope string_scope.
Local Open Scope Z_scope.

(** ** Python exceptions and results *)

(** The exceptions the script can meet.  [sys.exit(n)] raises
    [SystemExit n]; the others come from [int], from reading a local
    variable that was never assigned, from the [os] and [sndhdr]
    calls, and from [getopt]. *)
Inductive exn : Type :=
  | SystemExit (code : Z)
  | ValueError (literal : string)
  | OverflowError
  | UnboundLocalError (name : string)
  | FileNotFoundError (path : string)
  | NotADirectoryError (path : string)
  | IsADirectoryError (path : string)
  | FileExistsError (path : string)
  | PermissionError (path : string)
  | GetoptError (msg : string) (opt : string).

Inductive result (A : Type) : Type :=
  | Ok (a : A)
  | Err (e : exn).
Arguments Ok {A} a.
Arguments Err {A} e.

(** The status the interpreter hands to the shell: 0 when the script
    runs to its end, the argument of [sys.exit], and 1 for any other
    exception that nobody caught. *)
Definition exit_status {A : Type} (r : result A) : Z :=
  match r with
  | Ok _ => 0
  | Err (SystemExit code) => code
  | Err _ => 1
  end.

(** The Python values that reach the variables of the script. *)
Inductive pyval : Type :=
  | PyNone
  | PyBool (b : bool)
  | PyInt (n : Z)
  | PyStr (s : string).

(** ** IEEE 754 binary64, the [float] of Python *)

Module Float64.

Definition prec : Z := 53.
Definition emax : Z := 1024.

Definition mul : spec_float -> spec_float -> spec_float := SFmul prec emax.
Definition div : spec_float -> spec_float -> spec_float := SFdiv prec emax.

(** An integer literal or an [int] operand of a mixed operation,
    rounded to the nearest float, ties to even. *)
Definition of_Z (n : Z) : spec_float := binary_normalize prec emax n 0 false.

(** [float(n)] for an [int]: too large a magnitude raises. *)
Definition of_int (n : Z) : result spec_float :=
  match of_Z n with
  | S754_infinity _ => Err OverflowError
  | x => Ok x
  end.

(** [int(x)] for a [float]: truncation towards zero. *)
Definition to_int (x : spec_float) : result Z :=
  match x with
  | S754_zero _ => Ok 0
  | S754_finite s m e =>
      let a := match e with
               | Zneg p => Z.pos m / 2 ^ Z.pos p
               | _ => Z.pos m * 2 ^ e
               end in
      Ok (if s then - a else a)
  | S754_infinity _ => Err OverflowError
  | S754_nan => Err (ValueError "nan")
  end.

End Float64.

(** ** [convert_ms_to_frames] *)

(** [int(framerate * (chunk_size_ms / 1000.0))] on two [int]s: the
    quotient is a float division by the literal [1000.0], the product
    a float multiplication, each rounded to binary64. *)
Definition convert_ms_to_frames (chunk_size_ms framerate : Z) : result Z :=
  match Float64.of_int chunk_size_ms with
  | Err e => Err e
  | Ok ms =>
      let q := Float64.div ms (Float64.of_Z 1000) in
      match Float64.of_int framerate with
      | Err e => Err e
      | Ok fr => Float64.to_int (Float64.mul fr q)
      end
  end.

(** ** [int] on a string *)

(** [int(s)] in base 10, on a string of ASCII characters: white space
    around the literal (tab to carriage return, and the space) is
    dropped, one sign is allowed, and the digits may be grouped by
    single underscores.  Anything else raises [ValueError].  This is
    what [int] does on ASCII strings of at most 4300 characters; the
    statements that depend on the conversion say so. *)
Definition is_space (c : ascii) : bool :=
  let n := Z.of_nat (nat_of_ascii c) in
  ((9 <=? n) && (n <=? 13)) || (n =? 32).

Definition digit_of (c : ascii) : option Z :=
  let n := Z.of_nat (nat_of_ascii c) in
  if (48 <=? n) && (n <=? 57) then Some (n - 48) else None.

Fixpoint lstrip (l : list ascii) : list ascii :=
  match l with
  | c :: r => if is_space c then lstrip r else l
  | [] => []
  end.

Definition strip (l : list ascii) : list ascii :=
  rev (lstrip (rev (lstrip l))).

Fixpoint digits (acc : Z) (after_digit : bool) (l : list ascii) : option Z :=
  match l with
  | [] => if after_digit then Some acc else None
  | c :: r =>
      if Ascii.eqb c "_"
      then (if after_digit then digits acc false r else None)
      else match digit_of c with
           | Some d => digits (10 * acc + d) true r
           | None => None
           end
  end.

Definition parse_int (s : string) : option Z :=
  match strip (list_ascii_of_string s) with
  | c :: r =>
      if Ascii.eqb c "+" then digits 0 false r
      else if Ascii.eqb c "-" then Z.opp <$> digits 0 false r
      else digits 0 false (c :: r)
  | [] => None
  end.

Definition py_int (s : string) : result Z :=
  match parse_int s with
  | Some n => Ok n
  | None => Err (ValueError s)
  end.

(** ** [getopt.getopt] *)

(** The standard library's [getopt], function by function. *)

Fixpoint drop_chars (n : nat) (s : string) : string :=
  match n, s with
  | S n', String _ r => drop_chars n' r
  | _, _ => s
  end.

Fixpoint last_char_is (c : ascii) (s : string) : bool :=
  match s with
  | EmptyString => false
  | String d EmptyString => Ascii.eqb d c
  | String _ r => last_char_is c r
  end.

Fixpoint drop_last (s : string) : string :=
  match s with
  | EmptyString => EmptyString
  | String _ EmptyString => EmptyString
  | String c r => String c (drop_last r)
  end.

(** [opt[:i], opt[i+1:]] at the first ['='] of [opt], if there is one. *)
Fixpoint split_at_equals (opt : string) : string * option string :=
  match opt with
  | EmptyString => (EmptyString, None)
  | String c r =>
      if Ascii.eqb c "="
      then (EmptyString, Some r)
      else let '(name, optarg) := split_at_equals r in (String c name, optarg)
  end.

Definition long_has_args (opt : string) (longopts : list string)
    : result (bool * string) :=
  let possibilities := List.filter (String.prefix opt) longopts in
  match possibilities with
  | [] => Err (GetoptError ("option --" ++ opt ++ " not recognized") opt)
  | _ =>
      if existsb (String.eqb opt) possibilities then Ok (false, opt)
      else if existsb (String.eqb (opt ++ "=")) possibilities
      then Ok (true, opt)
      else match possibilities with
           | [unique_match] =>
               let has_arg := last_char_is "=" unique_match in
               Ok (has_arg,
                   if has_arg then drop_last unique_match else unique_match)
           | _ =>
               Err (GetoptError
                      ("option --" ++ opt ++ " not a unique prefix") opt)
           end
  end.

Definition do_longs (opts : list (string * string)) (opt : string)
    (longopts args : list string)
    : result (list (string * string) * list string) :=
  let '(opt, optarg) := split_at_equals opt in
  match long_has_args opt longopts with
  | Err e => Err e
  | Ok (has_arg, opt) =>
      if has_arg : bool
      then match optarg with
           | None =>
               match args with
               | [] =>
                   Err (GetoptError
                          ("option --" ++ opt ++ " requires argument") opt)
               | optarg :: args =>
                   Ok ((opts ++ [(("--" ++ opt)%string, optarg)])%list, args)
               end
           | Some optarg => Ok ((opts ++ [(("--" ++ opt)%string, optarg)])%list, args)
           end
      else match optarg with
           | Some _ =>
               Err (GetoptError
                      ("option --" ++ opt ++ " must not have an argument")
                      opt)
           | None => Ok ((opts ++ [(("--" ++ opt)%string, EmptyString)])%list, args)
           end
  end.

Fixpoint short_has_arg (opt : ascii) (shortopts : string) : result bool :=
  match shortopts with
  | EmptyString =>
      Err (GetoptError
             ("option -" ++ String opt EmptyString ++ " not recognized")
             (String opt EmptyString))
  | String c r =>
      if Ascii.eqb opt c && negb (Ascii.eqb c ":")
      then Ok (String.prefix ":" r)
      else short_has_arg opt r
  end.

Fixpoint do_shorts (opts : list (string * string)) (optstring : string)
    (shortopts : string) (args : list string)
    : result (list (string * string) * list string) :=
  match optstring with
  | EmptyString => Ok (opts, args)
  | String opt optstring =>
      match short_has_arg opt shortopts with
      | Err e => Err e
      | Ok true =>
          match optstring with
          | EmptyString =>
              match args with
              | [] =>
                  Err (GetoptError
                         ("option -" ++ String opt EmptyString
                          ++ " requires argument")
                         (String opt EmptyString))
              | optarg :: args =>
                  Ok ((opts ++ [(("-" ++ String opt EmptyString)%string, optarg)])%list,
                      args)
              end
          | optarg =>
              Ok ((opts ++ [(("-" ++ String opt EmptyString)%string, optarg)])%list,
                  args)
          end
      | Ok false =>
          do_shorts
            (opts ++ [(("-" ++ String opt EmptyString)%string, EmptyString)])%list
            optstring shortopts args
      end
  end.

(** The [while] loop of [getopt]; every turn takes at least one word
    off [args], so [fuel] turns are enough when [fuel] is the number of
    words ([getopt_loop_enough] below). *)
Fixpoint getopt_loop (fuel : nat) (opts : list (string * string))
    (args : list string) (shortopts : string) (longopts : list string)
    : result (list (string * string) * list string) :=
  match fuel with
  | O => Ok (opts, args)
  | S fuel =>
      match args with
      | [] => Ok (opts, args)
      | arg :: rest =>
          if String.prefix "-" arg && negb (String.eqb arg "-")
          then
            if String.eqb arg "--" then Ok (opts, rest)
            else
              match (if String.prefix "--" arg
                     then do_longs opts (drop_chars 2 arg) longopts rest
                     else do_shorts opts (drop_chars 1 arg) shortopts rest)
              with
              | Err e => Err e
              | Ok (opts, args) => getopt_loop fuel opts args shortopts longopts
              end
          else Ok (opts, args)
      end
  end.

Definition getopt (args : list string) (shortopts : string)
    (longopts : list string)
    : result (list (string * string) * list string) :=
  getopt_loop (length args) [] args shortopts longopts.

(** ** The world of the script: a file system and standard output *)

(** What [sndhdr.what] reports about a sound file; the script looks at
    the first field only. *)
Record SndHeaders : Type := {
  filetype : string;
  framerate : Z;
  nchannels : Z;
  nframes : Z;
  sampwidth : Z
}.

(** A path names a directory, with the entries [os.listdir] returns, or
    a file, with the header [sndhdr.what] finds in it, if any. *)
Inductive node : Type :=
  | Dir (entries : list string)
  | File (hdr : option SndHeaders).

Inductive event : Type :=
  | Print (line : string)
  | PrintExc (e : exn).

(** [uncreatable] holds the paths at which the system refuses to make a
    directory (no permission, a read-only volume, ...). *)
Record world : Type := {
  fs : gmap string node;
  uncreatable : gset string;
  stdout : list event
}.

Definition with_fs (m : gmap string node) (w : world) : world :=
  {| fs := m; uncreatable := uncreatable w; stdout := stdout w |}.

Definition with_stdout (o : list event) (w : world) : world :=
  {| fs := fs w; uncreatable := uncreatable w; stdout := o |}.

(** Computations of the script: they read and change the world, and end
    with a value or with an exception. *)
Definition M (A : Type) : Type := world -> result A * world.

Definition ret {A : Type} (a : A) : M A := fun w => (Ok a, w).

Definition raise {A : Type} (e : exn) : M A := fun w => (Err e, w).

Definition bind {A B : Type} (c : M A) (k : A -> M B) : M B :=
  fun w =>
    match c w with
    | (Ok a, w') => k a w'
    | (Err e, w') => (Err e, w')
    end.

Declare Scope py_scope.
Delimit Scope py_scope with py.
Notation "x <- c ;; k" := (bind c (fun x => k))
  (at level 100, c at next level, right associativity) : py_scope.
Notation "c ;;; k" := (bind c (fun _ => k))
  (at level 100, k at level 200, right associativity) : py_scope.
Local Open Scope py_scope.

(** [try: body  except: handler], the bare form, which catches every
    exception. *)
Definition try_except {A : Type} (body : M A) (handler : exn -> M A) : M A :=
  fun w =>
    match body w with
    | (Ok a, w') => (Ok a, w')
    | (Err e, w') => handler e w'
    end.

Definition lift {A : Type} (r : result A) : M A := fun w => (r, w).

Definition print (line : string) : M unit :=
  fun w => (Ok tt, with_stdout (stdout w ++ [Print line]) w).

(** [traceback.print_exc(file=sys.stdout)] *)
Definition print_exc (e : exn) : M unit :=
  fun w => (Ok tt, with_stdout (stdout w ++ [PrintExc e]) w).

Definition sys_exit {A : Type} (code : Z) : M A := raise (SystemExit code).

(** [os.path.isdir] *)
Definition isdir (path : string) : M bool :=
  fun w =>
    match fs w !! path with
    | Some (Dir _) => (Ok true, w)
    | _ => (Ok false, w)
    end.

(** [os.listdir] *)
Definition listdir (path : string) : M (list string) :=
  fun w =>
    match fs w !! path with
    | Some (Dir entries) => (Ok entries, w)
    | Some (File _) => (Err (NotADirectoryError path), w)
    | None => (Err (FileNotFoundError path), w)
    end.

(** [sndhdr.what]: it opens the file, so a directory or a missing file
    raises.  A file that is there is taken to be readable. *)
Definition sndhdr_what (path : string) : M (option SndHeaders) :=
  fun w =>
    match fs w !! path with
    | Some (File hdr) => (Ok hdr, w)
    | Some (Dir _) => (Err (IsADirectoryError path), w)
    | None => (Err (FileNotFoundError path), w)
    end.

(** [os.makedirs]: the leaf directory appears in the file system; the
    intermediate directories it also makes are not tracked, since no
    later step looks at them.  A path in [uncreatable] is one the
    system refuses to make; the refusal is recorded as
    [PermissionError], whatever the reason of the system is. *)
Definition makedirs (path : string) : M unit :=
  fun w =>
    match fs w !! path with
    | Some _ => (Err (FileExistsError path), w)
    | None =>
        if decide (path ∈ uncreatable w)
        then (Err (PermissionError path), w)
        else (Ok tt, with_fs (<[path := Dir []]> (fs w)) w)
    end.

Definition starts_with_sep (s : string) : bool :=
  match s with
  | String c _ => Ascii.eqb c "/"
  | EmptyString => false
  end.

Fixpoint ends_with_sep (s : string) : bool :=
  match s with
  | EmptyString => false
  | String c EmptyString => Ascii.eqb c "/"
  | String _ r => ends_with_sep r
  end.

(** [os.path.join] on two components *)
Definition join (a b : string) : string :=
  if starts_with_sep b then b
  else if String.eqb a EmptyString || ends_with_sep a then (a ++ b)%string
  else (a ++ "/" ++ b)%string.

(** [os.linesep] *)
Definition linesep : string := String (ascii_of_nat 10) EmptyString.

Definition dquote : string := String (ascii_of_nat 34) EmptyString.

(** ** The script *)

Definition usage : string :=
  ("
    Usage: python chainlink.py --input1 <arg> --input2 <arg> --output <arg> 
                               --chunk_size <arg> [-v] [-m] [-c cores] [-h]

    Mandatory Options:

    --input1      Directory containing wav files to recreate with concatenative 
                  synthesis. Can contain other files, but this script will only
                  process the wavs within.

    --input2      Directory conatining the "
  ++ dquote ++
"chain links,"
  ++ dquote ++
" or a bunch of wavs that
                  the script will use to recreate the wavs in 'input1'

    --output      Directory where you want the script to save output

    --chunk_size  Number between 10 and 1000. The chunk size in milleseconds, 
                  where a chunk is the segment of a sample from input1 that gets
                  replaced by a segment of the same size from a sample within 
                  the input2 directory

    Optional Options:

    -v            Turn verbosity on - increases text output the script generates

    -m            Turn multiprocessing on - leverages multicore systems

    -c            Number of cores to use, defaults to 2 if multiprocessing is 
                  specified but the user doesn't pass an argument to this option

    -h            Print this usage message and exit
    ")%string.

(** The loop [for f in os.listdir(dir): ... break ... else: ...] of
    [check_options], run on the listing: [true] when the loop is left
    by [break], [false] when the listing is exhausted and the [else]
    clause runs. *)
Fixpoint scan_for_wav (dir : string) (entries : list string) : M bool :=
  match entries with
  | [] => ret false
  | f :: rest =>
      hdr <- sndhdr_what (join dir f) ;;
      match hdr with
      | Some h =>
          if String.eqb (filetype h) "wav" then ret true
          else scan_for_wav dir rest
      | None => scan_for_wav dir rest
      end
  end.

Definition msg_no_dir1 : string := "Input directory 1 does not exist".
Definition msg_no_dir2 : string := "Input directory 2 does not exist".
Definition msg_no_wavs1 : string := "No wavs in input directory 1".
Definition msg_no_wavs2 : string := "No wavs in input directory 2".
Definition msg_chunk_range : string :=
  "Chunk size must be between 10 and 1000 (milliseconds)".
Definition msg_chunk_int : string :=
  "Chunk size must be an integer between 10 and 1000".

(** [check_options]; the local [is_invalid] is passed from step to
    step. *)
Definition check_options
    (input_dir1 input_dir2 output_dir : string) (chunk_size : pyval)
    (usage : string) : M unit :=
  let is_invalid := false in
  d1 <- isdir input_dir1 ;;
  is_invalid <- (if negb d1
                 then print msg_no_dir1 ;;; ret true
                 else ret is_invalid) ;;
  d2 <- isdir input_dir2 ;;
  is_invalid <- (if negb d2
                 then print msg_no_dir2 ;;; ret true
                 else ret is_invalid) ;;
  entries1 <- listdir input_dir1 ;;
  broke1 <- scan_for_wav input_dir1 entries1 ;;
  is_invalid <- (if broke1 then ret is_invalid
                 else print msg_no_wavs1 ;;; ret true) ;;
  entries2 <- listdir input_dir2 ;;
  broke2 <- scan_for_wav input_dir2 entries2 ;;
  is_invalid <- (if broke2 then ret is_invalid
                 else print msg_no_wavs2 ;;; ret true) ;;
  d3 <- isdir output_dir ;;
  is_invalid <- (if negb d3
                 then try_except
                        (makedirs output_dir ;;; ret is_invalid)
                        (fun e => print_exc e ;;; ret true)
                 else ret is_invalid) ;;
  is_invalid <- (match chunk_size with
                 | PyInt n =>
                     if (n <? 10) || (n >? 1000)
                     then print msg_chunk_range ;;; ret true
                     else ret is_invalid
                 | PyBool b =>
                     if (Z.b2z b <? 10) || (Z.b2z b >? 1000)
                     then print msg_chunk_range ;;; ret true
                     else ret is_invalid
                 | _ => print msg_chunk_int ;;; ret true
                 end) ;;
  if is_invalid : bool
  then print usage ;;; sys_exit 1
  else ret tt.

(** The locals of [process_options]; the four that have no initial
    value are unbound ([None]) until an option assigns them. *)
Record locals : Type := {
  input_dir1 : option string;
  input_dir2 : option string;
  output_dir : option string;
  chunk_size : option Z;
  is_verbose : bool;
  is_mp : bool;
  cores : pyval;
  mandatory_checks : Z
}.

Definition initial_locals : locals :=
  {| input_dir1 := None; input_dir2 := None; output_dir := None;
     chunk_size := None; is_verbose := false; is_mp := false;
     cores := PyInt 2; mandatory_checks := 0 |}.

Definition set_input_dir1 (arg : string) (l : locals) : locals :=
  {| input_dir1 := Some arg; input_dir2 := input_dir2 l;
     output_dir := output_dir l; chunk_size := chunk_size l;
     is_verbose := is_verbose l; is_mp := is_mp l; cores := cores l;
     mandatory_checks := mandatory_checks l + 1 |}.

Definition set_input_dir2 (arg : string) (l : locals) : locals :=
  {| input_dir1 := input_dir1 l; input_dir2 := Some arg;
     output_dir := output_dir l; chunk_size := chunk_size l;
     is_verbose := is_verbose l; is_mp := is_mp l; cores := cores l;
     mandatory_checks := mandatory_checks l + 1 |}.

Definition set_output_dir (arg : string) (l : locals) : locals :=
  {| input_dir1 := input_dir1 l; input_dir2 := input_dir2 l;
     output_dir := Some arg; chunk_size := chunk_size l;
     is_verbose := is_verbose l; is_mp := is_mp l; cores := cores l;
     mandatory_checks := mandatory_checks l + 1 |}.

Definition set_chunk_size (n : Z) (l : locals) : locals :=
  {| input_dir1 := input_dir1 l; input_dir2 := input_dir2 l;
     output_dir := output_dir l; chunk_size := Some n;
     is_verbose := is_verbose l; is_mp := is_mp l; cores := cores l;
     mandatory_checks := mandatory_checks l + 1 |}.

Definition set_is_verbose (l : locals) : locals :=
  {| input_dir1 := input_dir1 l; input_dir2 := input_dir2 l;
     output_dir := output_dir l; chunk_size := chunk_size l;
     is_verbose := true; is_mp := is_mp l; cores := cores l;
     mandatory_checks := mandatory_checks l |}.

Definition set_is_mp (l : locals) : locals :=
  {| input_dir1 := input_dir1 l; input_dir2 := input_dir2 l;
     output_dir := output_dir l; chunk_size := chunk_size l;
     is_verbose := is_verbose l; is_mp := true; cores := cores l;
     mandatory_checks := mandatory_checks l |}.

Definition set_cores (arg : string) (l : locals) : locals :=
  {| input_dir1 := input_dir1 l; input_dir2 := input_dir2 l;
     output_dir := output_dir l; chunk_size := chunk_size l;
     is_verbose := is_verbose l; is_mp := is_mp l; cores := PyStr arg;
     mandatory_checks := mandatory_checks l |}.

(** [arg is not None]: [getopt] hands over strings only, the empty
    string for an option without argument. *)
Definition is_not_None (arg : string) : bool := true.

(** One turn of [for opt, arg in options]: the eight [if]s in order. *)
Definition option_step (l : locals) (opt arg : string) : M locals :=
  l <- (if String.eqb opt "--input1"
        then (if is_not_None arg then ret (set_input_dir1 arg l) else ret l)
        else ret l) ;;
  l <- (if String.eqb opt "--input2"
        then (if is_not_None arg then ret (set_input_dir2 arg l) else ret l)
        else ret l) ;;
  l <- (if String.eqb opt "--output"
        then (if is_not_None arg then ret (set_output_dir arg l) else ret l)
        else ret l) ;;
  l <- (if String.eqb opt "--chunk_size"
        then (if is_not_None arg
              then n <- lift (py_int arg) ;; ret (set_chunk_size n l)
              else ret l)
        else ret l) ;;
  l <- (if String.eqb opt "-v" then ret (set_is_verbose l) else ret l) ;;
  l <- (if String.eqb opt "-m" then ret (set_is_mp l) else ret l) ;;
  l <- (if String.eqb opt "-c" then ret (set_cores arg l) else ret l) ;;
  if String.eqb opt "-h"
  then print usage ;;; sys_exit 0
  else ret l.

Fixpoint option_loop (l : locals) (options : list (string * string))
    : M locals :=
  match options with
  | [] => ret l
  | (opt, arg) :: rest =>
      l' <- option_step l opt arg ;;
      option_loop l' rest
  end.

(** Reading a local: one that was never assigned raises. *)
Definition read_local {A : Type} (name : string) (v : option A) : M A :=
  match v with
  | Some a => ret a
  | None => raise (UnboundLocalError name)
  end.

Definition msg_mandatory : string :=
  (linesep ++ "Errors detected with mandatory options")%string.

(** What [process_options] returns: [input_dir1, input_dir2,
    output_dir, chunk_size, is_verbose, is_mp, cores]. *)
Definition settings : Type :=
  string * string * string * Z * bool * bool * pyval.

Definition settings_chunk_size (s : settings) : Z := snd (fst (fst (fst s))).
Definition settings_cores (s : settings) : pyval := snd s.
Definition settings_is_mp (s : settings) : bool := snd (fst s).

(** The part of [process_options] after the mandatory-option check:
    the call of [check_options] and the [return]. *)
Definition check_and_return (l : locals) : M settings :=
  i1 <- read_local "input_dir1" (input_dir1 l) ;;
  i2 <- read_local "input_dir2" (input_dir2 l) ;;
  o <- read_local "output_dir" (output_dir l) ;;
  cs <- read_local "chunk_size" (chunk_size l) ;;
  check_options i1 i2 o (PyInt cs) usage ;;;
  ret (i1, i2, o, cs, is_verbose l, is_mp l, cores l).

(** [process_options], on the list [options] that
    [getopt.getopt(sys.argv[1:], "hvmc:", ["input1=", "input2=",
    "output=", "chunk_size="])] returned. *)
Definition process_options (options : list (string * string)) : M settings :=
  l <- option_loop initial_locals options ;;
  if negb (mandatory_checks l =? 4)
  then print msg_mandatory ;;; print usage ;;; sys_exit 1
  else check_and_return l.

Definition shortopts : string := "hvmc:".
Definition longopts : list string :=
  ["input1="; "input2="; "output="; "chunk_size="].

(** [process_options] as the script runs it, on [argv], the words of
    [sys.argv[1:]]: the call of [getopt.getopt], whose exception
    nobody catches, and then the rest of the function on the options
    it returns. *)
Definition process_options_argv (argv : list string) : M settings :=
  parsed <- lift (getopt argv shortopts longopts) ;;
  process_options (fst parsed).

(** ** Vocabulary of the statements *)

Definition is_wav (hdr : option SndHeaders) : bool :=
  match hdr with
  | Some h => String.eqb (filetype h) "wav"
  | None => false
  end.

(** Going through the listing of [dir] in order, one meets plain files
    only until a wav is found. *)
Inductive finds_wav (m : gmap string node) (dir : string)
    : list string -> Prop :=
  | finds_here f rest hdr :
      m !! join dir f = Some (File hdr) -> is_wav hdr = true ->
      finds_wav m dir (f :: rest)
  | finds_later f rest hdr :
      m !! join dir f = Some (File hdr) -> is_wav hdr = false ->
      finds_wav m dir rest ->
      finds_wav m dir (f :: rest).

(** An input directory that [check_options] has nothing to say about. *)
Definition valid_input_dir (m : gmap string node) (dir : string) : Prop :=
  exists entries, m !! dir = Some (Dir entries) /\ finds_wav m dir entries.

Definition is_directory (m : gmap string node) (path : string) : Prop :=
  exists entries, m !! path = Some (Dir entries).

(** An output directory that is there or can be made. *)
Definition valid_output_dir (w : world) (path : string) : Prop :=
  is_directory (fs w) path \/
  (fs w !! path = None /\ path ∉ uncreatable w).

(** The option names of a parsed command line. *)
Definition names (options : list (string * string)) : list string :=
  map fst options.

(** How often an option was given. *)
Fixpoint occurrences (name : string) (options : list (string * string)) : Z :=
  match options with
  | [] => 0
  | (opt, _) :: rest =>
      (if String.eqb opt name then 1 else 0) + occurrences name rest
  end.

(** The argument of the last occurrence of an option. *)
Fixpoint last_arg (name : string) (options : list (string * string))
    : option string :=
  match options with
  | [] => None
  | (opt, arg) :: rest =>
      match last_arg name rest with
      | Some a => Some a
      | None => if String.eqb opt name then Some arg else None
      end
  end.

Definition or_else {A : Type} (o d : option A) : option A :=
  match o with
  | Some a => Some a
  | None => d
  end.

(** What the locals [l] hold once the loop has gone through [options],
    starting from [l0]: each variable has the argument of the last
    option that assigns it, and the counter has grown by the number of
    mandatory options met. *)
Definition records (l0 : locals) (options : list (string * string))
    (l : locals) : Prop :=
  input_dir1 l = or_else (last_arg "--input1" options) (input_dir1 l0) /\
  input_dir2 l = or_else (last_arg "--input2" options) (input_dir2 l0) /\
  output_dir l = or_else (last_arg "--output" options) (output_dir l0) /\
  chunk_size l = match last_arg "--chunk_size" options with
                 | Some arg => parse_int arg
                 | None => chunk_size l0
                 end /\
  is_verbose l = is_verbose l0 || (0 <? occurrences "-v" options) /\
  is_mp l = is_mp l0 || (0 <? occurrences "-m" options) /\
  cores l = match last_arg "-c" options with
            | Some arg => PyStr arg
            | None => cores l0
            end /\
  mandatory_checks l =
    mandatory_checks l0 + occurrences "--input1" options
    + occurrences "--input2" options + occurrences "--output" options
    + occurrences "--chunk_size" options.

Definition mandatory : list string :=
  ["--input1"; "--input2"; "--output"; "--chunk_size"].

(** Every [--chunk_size] argument of the list is an integer literal. *)
Definition chunk_sizes_parse (options : list (string * string)) : Prop :=
  forall arg, In ("--chunk_size", arg) options -> parse_int arg <> None.

(** Every exception that leaves [c] satisfies [E]. *)
Definition throws {A : Type} (E : exn -> Prop) (c : M A) : Prop :=
  forall w e w', c w = (Err e, w') -> E e.


(** An exception other than [SystemExit]. *)
Definition plain (e : exn) : Prop := forall code, e <> SystemExit code.

(** [dir] is a directory with a wav among its entries. *)
Definition holds_wav (m : gmap string node) (dir : string) : Prop :=
  exists entries f hdr,
    m !! dir = Some (Dir entries) /\ In f entries /\
    m !! join dir f = Some (File hdr) /\ is_wav hdr = true.

(** An entry of [dir] at which [sndhdr.what] returns, with a header
    that is no wav, or with none. *)
Definition passed_over (w : world) (dir f : string) : Prop :=
  exists hdr, sndhdr_what (join dir f) w = (Ok hdr, w) /\ is_wav hdr = false.

(** [dir] can be listed, and [sndhdr.what] returns at each of its
    entries. *)
Definition scannable (w : world) (dir : string) : Prop :=
  exists entries,
    listdir dir w = (Ok entries, w) /\
    Forall (fun f => exists hdr, sndhdr_what (join dir f) w = (Ok hdr, w))
           entries.

(** The scan for a wav as a boolean function of what the calls give. *)
Definition wav_entry (w : world) (dir f : string) : bool :=
  match fst (sndhdr_what (join dir f) w) with
  | Ok hdr => is_wav hdr
  | Err _ => false
  end.

Definition has_wav (w : world) (dir : string) : bool :=
  match fst (listdir dir w) with
  | Ok entries => existsb (wav_entry w dir) entries
  | Err _ => false
  end.

(** What there is to report about the output directory, which is the
    exception of [os.makedirs], if it is called and raises one, and
    about the chunk size. *)
Definition output_problems (w : world) (out : string) : list event :=
  match fst (isdir out w) with
  | Ok true => []
  | _ =>
      match fst (makedirs out w) with
      | Ok _ => []
      | Err e => [PrintExc e]
      end
  end.

Definition chunk_problems (cs : pyval) : list event :=
  match cs with
  | PyInt n =>
      if (n <? 10) || (n >? 1000) then [Print msg_chunk_range] else []
  | PyBool _ => [Print msg_chunk_range]
  | _ => [Print msg_chunk_int]
  end.

(** Everything there is to report about a configuration whose input
    directories can be scanned, in the order of the checks. *)
Definition problems (w : world) (d1 d2 out : string) (cs : pyval)
    : list event :=
  ((if has_wav w d1 then [] else [Print msg_no_wavs1]) ++
   (if has_wav w d2 then [] else [Print msg_no_wavs2]) ++
   output_problems w out ++ chunk_problems cs)%list.

(** The number of mandatory options met, repeats included. *)
Definition mandatory_met (options : list (string * string)) : Z :=
  occurrences "--input1" options + occurrences "--input2" options
  + occurrences "--output" options + occurrences "--chunk_size" options.

(** The first of the four variables that no option has bound. *)
Definition first_unbound (options : list (string * string)) : option string :=
  match last_arg "--input1" options with
  | None => Some "input_dir1"
  | Some _ =>
      match last_arg "--input2" options with
      | None => Some "input_dir2"
      | Some _ =>
          match last_arg "--output" options with
          | None => Some "output_dir"
          | Some _ =>
              match last_arg "--chunk_size" options with
              | None => Some "chunk_size"
              | Some _ => None
              end
          end
      end
  end.

(** A string of ASCII characters. *)
Definition ascii_only (s : string) : Prop :=
  Forall (fun c => (nat_of_ascii c < 128)%nat) (list_ascii_of_string s).

(** An argument that [int] converts: an ASCII literal that [parse_int]
    reads, short enough for the limit that newer versions of Python
    put on the number of digits. *)
Definition int_converts (arg : string) : Prop :=
  ascii_only arg /\ (String.length arg <= 4300)%nat /\ parse_int arg <> None.


(** [int] converts every [--chunk_size] argument of the list. *)
Definition chunk_sizes_convert (options : list (string * string)) : Prop :=
  forall arg, In ("--chunk_size", arg) options -> int_converts arg.

(** Every [--chunk_size] argument of the list is a string on which
    [parse_int] is [int]: ASCII, and of at most 4300 characters. *)
Definition chunk_sizes_ascii (options : list (string * string)) : Prop :=
  forall arg, In ("--chunk_size", arg) options ->
    ascii_only arg /\ (String.length arg <= 4300)%nat.

(** [getopt.getopt] takes the command line and returns [options]. *)
Definition accepted (argv : list string) (options : list (string * string))
    : Prop :=
  exists rest, getopt argv shortopts longopts = Ok (options, rest).

(** The sample rates in common use. *)
Definition standard_rates : list Z :=
  [8000; 11025; 16000; 22050; 32000; 44100; 48000; 88200; 96000;
   176400; 192000].

(** ** Sample worlds *)

Definition wav_hdr : SndHeaders :=
  {| filetype := "wav"; framerate := 44100; nchannels := 1;
     nframes := 44100; sampwidth := 2 |}.

Definition sample_fs : gmap string node :=
  list_to_map
    [("target", Dir ["notes.txt"; "a.wav"]);
     ("target/notes.txt", File None);
     ("target/a.wav", File (Some wav_hdr));
     ("donor", Dir ["b.wav"]);
     ("donor/b.wav", File (Some wav_hdr));
     ("texts", Dir ["notes.txt"]);
     ("texts/notes.txt", File None);
     ("out", Dir [])].

Definition sample_world : world :=
  {| fs := sample_fs; uncreatable := {["/proc/out"]}; stdout := [] |}.

Definition sample_options : list (string * string) :=
  [("--input1", "target"); ("--input2", "donor"); ("--output", "out");
   ("--chunk_size", "100"); ("-m", EmptyString)].

Definition sample_options_cores : list (string * string) :=
  [("--input1", "target"); ("-c", "8"); ("--input2", "donor");
   ("--output", "out"); ("--chunk_size", "100"); ("-m", EmptyString); ("-c", "4")].

Definition help_only : list (string * string) := [("-h", EmptyString)].

Definition input1_twice : list (string * string) :=
  [("--input1", "target"); ("--input1", "target"); ("--input2", "donor");
   ("--output", "out")].

Definition input1_only : list (string * string) := [("--input1", "target")].

Definition bad_chunk_only : list (string * string) :=
  [("--chunk_size", "abc")].

Definition bad_chunk_then_help : list (string * string) :=
  [("--input1", "target"); ("--chunk_size", "abc"); ("-h", EmptyString)].


Definition input1_repeated : list (string * string) :=
  [("--input1", "texts"); ("--input1", "target"); ("--input2", "donor");
   ("--output", "out"); ("--chunk_size", "100")].

Definition sample_options_reordered : list (string * string) :=
  [("-m", EmptyString); ("--chunk_size", "100"); ("--output", "out");
   ("--input2", "donor"); ("--input1", "target")].

(** Command lines, as [sys.argv[1:]]. *)
Definition sample_argv : list string :=
  ["--input1"; "target"; "--input2"; "donor"; "--output"; "out";
   "--chunk_size"; "100"; "-m"].

Definition argv_input1_only : list string := ["--input1"; "target"].

Definition argv_help_then_more : list string :=
  ["--input1"; "target"; "--input2"; "donor"; "--output"; "out";
   "--chunk_size"; "100"; "-m"; "-h"; "--input1"; "target"].

Definition argv_bad_chunk_then_help : list string :=
  ["--input1"; "target"; "--chunk_size"; "abc"; "-h"].

Definition argv_input1_repeated : list string :=
  ["--input1"; "texts"; "--input1"; "target"; "--input2"; "donor";
   "--output"; "out"; "--chunk_size"; "100"].

Definition argv_input1_twice : list string :=
  ["--input1"; "target"; "--input1"; "target"; "--input2"; "donor";
   "--output"; "out"].

Definition argv_unknown_option : list string :=
  ["--input1"; "target"; "--bogus"].

Definition argv_help_unknown_option : list string := ["-h"; "--bogus"].


Definition argv_help_only : list string := ["-h"].

Definition argv_bad_chunk_only : list string := ["--chunk_size"; "abc"].


Definition unknown_option : exn :=
  GetoptError "option --bogus not recognized" "bogus".

Definition sample_settings : settings :=
  ("target", "donor", "out", 100, false, true, PyInt 2).

Definition sample_settings_cores : settings :=
  ("target", "donor", "out", 100, false, true, PyStr "4").

(** ** Frame conversion *)

Lemma convert_ms_to_frames_100_44100 :
  convert_ms_to_frames 100 44100 = Ok 4410.
Proof. vm_compute. reflexivity. Qed.

(** On these sample rates the conversion is the exact quotient for
    every chunk size of the valid range. *)
Lemma convert_ms_to_frames_exact_at (chunk_size_ms fr : Z) :
  In fr [8000; 11025; 16000; 32000] ->
  10 <= chunk_size_ms <= 1000 ->
  convert_ms_to_frames chunk_size_ms fr = Ok (fr * chunk_size_ms / 1000).
Proof.
  intros Hfr Hms.
  assert (Hall : forallb (fun f =>
            forallb (fun k =>
              match convert_ms_to_frames (10 + Z.of_nat k) f with
              | Ok r => r =? f * (10 + Z.of_nat k) / 1000
              | Err _ => false
              end) (seq 0 991)) [8000; 11025; 16000; 32000] = true)
    by (vm_compute; reflexivity).
  rewrite forallb_forall in Hall.
  specialize (Hall fr Hfr). rewrite forallb_forall in Hall.
  specialize (Hall (Z.to_nat (chunk_size_ms - 10))).
  rewrite Z2Nat.id in Hall by lia.
  replace (10 + (chunk_size_ms - 10)) with chunk_size_ms in Hall by lia.
  assert (Hin : In (Z.to_nat (chunk_size_ms - 10)) (seq 0 991))
    by (apply in_seq; lia).
  specialize (Hall Hin).
  destruct (convert_ms_to_frames chunk_size_ms fr); [|discriminate].
  apply Z.eqb_eq in Hall. now subst.
Qed.

(** C1, at chunk_size_ms = 350 and framerate = 44100: the quotient
    350 / 1000.0 is the float just below 0.35, the product with 44100
    is the float just below 15435, and [int] cuts it to 15434, one
    frame short of floor(44100 * 350 / 1000) = 15435. *)
Theorem convert_ms_to_frames_350_44100 :
  convert_ms_to_frames 350 44100 = Ok 15434 /\
  44100 * 350 / 1000 = 15435.
Proof. split; vm_compute; reflexivity. Qed.

(** ** Running the computations *)

Lemma bind_ok {A B : Type} (c : M A) (k : A -> M B) w a w' :
  c w = (Ok a, w') -> bind c k w = k a w'.
Proof. unfold bind. now intros ->. Qed.

Lemma bind_ok_eq {A B : Type} (c : M A) (k : A -> M B) w a w' r :
  c w = (Ok a, w') -> k a w' = r -> bind c k w = r.
Proof. unfold bind. now intros -> <-. Qed.

Lemma bind_err {A B : Type} (c : M A) (k : A -> M B) w e w' :
  c w = (Err e, w') -> bind c k w = (Err e, w').
Proof. unfold bind. now intros ->. Qed.

Lemma isdir_true path w :
  is_directory (fs w) path -> isdir path w = (Ok true, w).
Proof. intros [entries H]. unfold isdir. now rewrite H. Qed.

Lemma isdir_false path w :
  ~ is_directory (fs w) path -> isdir path w = (Ok false, w).
Proof.
  intros H. unfold isdir.
  destruct (fs w !! path) as [[entries|hdr]|] eqn:E; try reflexivity.
  destruct H. now exists entries.
Qed.

Lemma listdir_dir path entries w :
  fs w !! path = Some (Dir entries) -> listdir path w = (Ok entries, w).
Proof. intros H. unfold listdir. now rewrite H. Qed.

Lemma listdir_not_dir path w :
  ~ is_directory (fs w) path ->
  exists e, listdir path w = (Err e, w) /\ forall code, e <> SystemExit code.
Proof.
  intros H. unfold listdir.
  destruct (fs w !! path) as [[entries|hdr]|] eqn:E.
  - destruct H. now exists entries.
  - eexists. split; [reflexivity | discriminate].
  - eexists. split; [reflexivity | discriminate].
Qed.

Lemma scan_for_wav_finds dir entries w :
  finds_wav (fs w) dir entries -> scan_for_wav dir entries w = (Ok true, w).
Proof.
  induction 1 as [f rest hdr Hf Hwav | f rest hdr Hf Hwav Hrest IH]; simpl.
  - erewrite bind_ok by (unfold sndhdr_what; rewrite Hf; reflexivity).
    destruct hdr as [h|]; simpl in Hwav; [|discriminate].
    now rewrite Hwav.
  - erewrite bind_ok by (unfold sndhdr_what; rewrite Hf; reflexivity).
    destruct hdr as [h|]; simpl in Hwav; [rewrite Hwav|]; exact IH.
Qed.

(** The scan reads the world and leaves it as it is. *)
Lemma scan_for_wav_world dir entries w :
  snd (scan_for_wav dir entries w) = w.
Proof.
  induction entries as [|f rest IH]; simpl; [reflexivity|].
  unfold bind, sndhdr_what.
  destruct (fs w !! join dir f) as [[es|[h|]]|]; simpl; try reflexivity.
  - destruct (String.eqb (filetype h) "wav"); [reflexivity | exact IH].
  - exact IH.
Qed.

Lemma scan_for_wav_raises dir entries w e :
  fst (scan_for_wav dir entries w) = Err e -> forall code, e <> SystemExit code.
Proof.
  induction entries as [|f rest IH]; simpl; [discriminate|].
  unfold bind, sndhdr_what.
  destruct (fs w !! join dir f) as [[es|[h|]]|]; simpl.
  - now intros [= <-].
  - destruct (String.eqb (filetype h) "wav"); [discriminate | exact IH].
  - exact IH.
  - now intros [= <-].
Qed.

(** A listing with a wav in it never ends in the [else] clause. *)
Lemma scan_for_wav_not_exhausted dir entries w f hdr :
  In f entries -> fs w !! join dir f = Some (File hdr) -> is_wav hdr = true ->
  fst (scan_for_wav dir entries w) <> Ok false.
Proof.
  induction entries as [|g rest IH]; simpl; [tauto|].
  intros [->|Hin] Hf Hwav.
  - erewrite bind_ok by (unfold sndhdr_what; rewrite Hf; reflexivity).
    destruct hdr as [h|]; simpl in Hwav; [|discriminate].
    rewrite Hwav. discriminate.
  - unfold bind, sndhdr_what.
    destruct (fs w !! join dir g) as [[es|[h|]]|]; simpl; try discriminate.
    + destruct (String.eqb (filetype h) "wav"); [discriminate | now apply IH].
    + now apply IH.
Qed.

Lemma makedirs_result path w :
  (exists w', makedirs path w = (Ok tt, w') /\
              fs w' !! path = Some (Dir []) /\ stdout w' = stdout w) \/
  (exists e, makedirs path w = (Err e, w) /\ forall code, e <> SystemExit code).
Proof.
  unfold makedirs.
  destruct (fs w !! path) as [n|].
  - right. eexists. split; [reflexivity | discriminate].
  - destruct (decide (path ∈ uncreatable w)).
    + right. eexists. split; [reflexivity | discriminate].
    + left. eexists. split; [reflexivity|]. split; [|reflexivity].
      simpl. apply lookup_insert_eq.
Qed.

(** Steps through a sequence of [bind]s whose first computation is
    known. *)
Tactic Notation "run_with" tactic3(tac) :=
  eapply bind_ok_eq; [ tac | cbv beta iota zeta ].

(** [check_options] on two valid input directories: what is left is
    the output directory and the chunk size. *)
Lemma check_options_valid_inputs d1 d2 out cs u w :
  valid_input_dir (fs w) d1 -> valid_input_dir (fs w) d2 ->
  check_options d1 d2 out cs u w =
  (d3 <- isdir out ;;
   is_invalid <- (if negb d3
                  then try_except (makedirs out ;;; ret false)
                                  (fun e => print_exc e ;;; ret true)
                  else ret false) ;;
   is_invalid <- (match cs with
                  | PyInt n =>
                      if (n <? 10) || (n >? 1000)
                      then print msg_chunk_range ;;; ret true
                      else ret is_invalid
                  | PyBool b =>
                      if (Z.b2z b <? 10) || (Z.b2z b >? 1000)
                      then print msg_chunk_range ;;; ret true
                      else ret is_invalid
                  | _ => print msg_chunk_int ;;; ret true
                  end) ;;
   if is_invalid : bool then print u ;;; sys_exit 1 else ret tt) w.
Proof.
  intros (es1 & Hd1 & Hw1) (es2 & Hd2 & Hw2).
  unfold check_options. cbv zeta.
  run_with (apply isdir_true; eexists; eassumption). simpl negb.
  run_with reflexivity.
  run_with (apply isdir_true; eexists; eassumption). simpl negb.
  run_with reflexivity.
  run_with (apply listdir_dir; eassumption).
  run_with (apply scan_for_wav_finds; eassumption).
  run_with reflexivity.
  run_with (apply listdir_dir; eassumption).
  run_with (apply scan_for_wav_finds; eassumption).
  run_with reflexivity.
  reflexivity.
Qed.

Lemma sample_target_valid : valid_input_dir (fs sample_world) "target".
Proof.
  eexists. split; [vm_compute; reflexivity|].
  eapply finds_later; [vm_compute; reflexivity | reflexivity |].
  eapply finds_here; [vm_compute; reflexivity | reflexivity].
Qed.

Lemma sample_donor_valid : valid_input_dir (fs sample_world) "donor".
Proof.
  eexists. split; [vm_compute; reflexivity|].
  eapply finds_here; [vm_compute; reflexivity | reflexivity].
Qed.

Lemma sample_out_valid : valid_output_dir sample_world "out".
Proof. left. eexists. vm_compute. reflexivity. Qed.

(** ** The chunk size check *)

Lemma chunk_size_tail n u w :
  (is_invalid <- (if (n <? 10) || (n >? 1000)
                  then print msg_chunk_range ;;; ret true
                  else ret false) ;;
   if is_invalid : bool then print u ;;; sys_exit 1 else ret tt) w =
  if (n <? 10) || (n >? 1000)
  then (Err (SystemExit 1),
        with_stdout (stdout w ++ [Print msg_chunk_range; Print u]) w)
  else (Ok tt, w).
Proof.
  destruct ((n <? 10) || (n >? 1000)); [|reflexivity].
  unfold bind, print, sys_exit, raise, ret, with_stdout. simpl.
  now rewrite <- app_assoc.
Qed.

(** C3: with valid input directories and a usable output directory,
    [check_options] returns normally exactly when the integer chunk
    size lies in 10..1000, both ends included; for any other integer
    it prints the range message and the usage text and leaves through
    [sys.exit(1)]. *)
Theorem check_options_chunk_size_range d1 d2 out u n w :
  valid_input_dir (fs w) d1 -> valid_input_dir (fs w) d2 ->
  valid_output_dir w out ->
  (10 <= n <= 1000 ->
   exists w', check_options d1 d2 out (PyInt n) u w = (Ok tt, w') /\
              stdout w' = stdout w) /\
  (~ 10 <= n <= 1000 ->
   exists w', check_options d1 d2 out (PyInt n) u w = (Err (SystemExit 1), w') /\
              stdout w' = (stdout w ++ [Print msg_chunk_range; Print u])%list).
Proof.
  intros H1 H2 Hout.
  rewrite (check_options_valid_inputs _ _ _ _ _ _ H1 H2).
  assert (Hrun : exists w1,
    (forall k : bool -> M unit,
       bind (isdir out)
         (fun d3 => bind (if negb d3
                          then try_except (makedirs out ;;; ret false)
                                          (fun e => print_exc e ;;; ret true)
                          else ret false) k) w = k false w1) /\
    stdout w1 = stdout w).
  { destruct Hout as [Hdir | [Hnone Hfree]].
    - exists w. split; [|reflexivity]. intros k.
      run_with (apply isdir_true; exact Hdir). reflexivity.
    - eexists. split; [intros k|].
      + run_with (apply isdir_false; intros [es Hes]; congruence).
        change (negb false) with true. cbv iota.
        run_with (unfold try_except, bind, makedirs; cbv beta;
                  rewrite Hnone; rewrite decide_False by exact Hfree;
                  reflexivity).
        reflexivity.
      + reflexivity. }
  destruct Hrun as (w1 & Hrun & Hsame).
  rewrite Hrun, chunk_size_tail.
  split; intros Hn.
  - exists w1. replace ((n <? 10) || (n >? 1000)) with false by lia.
    split; [reflexivity | exact Hsame].
  - eexists. replace ((n <? 10) || (n >? 1000)) with true by lia.
    split; [reflexivity|]. simpl. now rewrite Hsame.
Qed.

Lemma check_options_chunk_size_range_witness :
  (exists w', check_options "target" "donor" "out" (PyInt 10) usage sample_world
              = (Ok tt, w') /\ stdout w' = stdout sample_world) /\
  (exists w', check_options "target" "donor" "out" (PyInt 1001) usage sample_world
              = (Err (SystemExit 1), w') /\
              stdout w' = (stdout sample_world ++ [Print msg_chunk_range; Print usage])%list).
Proof.
  split.
  - apply (check_options_chunk_size_range "target" "donor" "out" usage 10
             sample_world sample_target_valid sample_donor_valid sample_out_valid).
    lia.
  - apply (check_options_chunk_size_range "target" "donor" "out" usage 1001
             sample_world sample_target_valid sample_donor_valid sample_out_valid).
    lia.
Defined.

(** ** The output directory *)

(** C10: with valid input directories and a chunk size in range, an
    output path that is no directory makes [check_options] call
    [os.makedirs] on it; when the call succeeds the options pass and
    the directory is there, and only when the call raises are the
    options rejected, with the traceback and the usage text printed. *)
Theorem check_options_makes_output_dir d1 d2 out u n w :
  valid_input_dir (fs w) d1 -> valid_input_dir (fs w) d2 ->
  10 <= n <= 1000 ->
  ~ is_directory (fs w) out ->
  (forall w', makedirs out w = (Ok tt, w') ->
     check_options d1 d2 out (PyInt n) u w = (Ok tt, w') /\
     is_directory (fs w') out) /\
  (forall e w', makedirs out w = (Err e, w') ->
     check_options d1 d2 out (PyInt n) u w =
     (Err (SystemExit 1),
      with_stdout (stdout w ++ [PrintExc e; Print u]) w)).
Proof.
  intros H1 H2 Hn Hout.
  rewrite (check_options_valid_inputs _ _ _ _ _ _ H1 H2).
  assert (Hrange : (n <? 10) || (n >? 1000) = false) by lia.
  split.
  - intros w' Hmk.
    split.
    + run_with (apply isdir_false; exact Hout).
      change (negb false) with true. cbv iota.
      run_with (unfold try_except; erewrite bind_ok by exact Hmk; reflexivity).
      rewrite Hrange. reflexivity.
    + destruct (makedirs_result out w) as [(w2 & Hok & Hdir & _) | (e & Herr & _)].
      * rewrite Hok in Hmk. injection Hmk as <-. eexists. exact Hdir.
      * rewrite Herr in Hmk. discriminate.
  - intros e w' Hmk.
    assert (w' = w) as ->.
    { destruct (makedirs_result out w) as [(w2 & Hok & _) | (e' & Herr & _)].
      - rewrite Hok in Hmk. discriminate.
      - rewrite Herr in Hmk. now injection Hmk. }
    run_with (apply isdir_false; exact Hout).
    change (negb false) with true. cbv iota.
    run_with (unfold try_except; erewrite bind_err by exact Hmk; reflexivity).
    rewrite Hrange.
    unfold bind, print, sys_exit, raise, ret, with_stdout. simpl.
    now rewrite <- app_assoc.
Qed.

Lemma check_options_makes_output_dir_witness :
  (exists w', check_options "target" "donor" "out/new" (PyInt 100) usage
                sample_world = (Ok tt, w') /\
              is_directory (fs w') "out/new") /\
  check_options "target" "donor" "/proc/out" (PyInt 100) usage sample_world =
    (Err (SystemExit 1),
     with_stdout (stdout sample_world ++
                  [PrintExc (PermissionError "/proc/out"); Print usage])
                 sample_world).
Proof.
  assert (Hno : forall p, sample_fs !! p = None -> ~ is_directory (fs sample_world) p).
  { intros p Hp [es Hes]. simpl in Hes. congruence. }
  split.
  - eexists.
    apply (proj1 (check_options_makes_output_dir "target" "donor" "out/new"
                    usage 100 sample_world sample_target_valid
                    sample_donor_valid ltac:(lia)
                    (Hno "out/new" ltac:(vm_compute; reflexivity)))).
    vm_compute. reflexivity.
  - apply (proj2 (check_options_makes_output_dir "target" "donor" "/proc/out"
                    usage 100 sample_world sample_target_valid
                    sample_donor_valid ltac:(lia)
                    (Hno "/proc/out" ltac:(vm_compute; reflexivity)))
             (PermissionError "/proc/out") sample_world).
    vm_compute. reflexivity.
Defined.

(** ** Input directories that are missing *)

Lemma isdir_total path w : exists b, isdir path w = (Ok b, w).
Proof.
  unfold isdir. destruct (fs w !! path) as [[es|hdr]|]; eexists; reflexivity.
Qed.

Lemma classic_dir (m : gmap string node) path :
  is_directory m path \/ ~ is_directory m path.
Proof.
  unfold is_directory.
  destruct (m !! path) as [[es|hdr]|].
  - left. now exists es.
  - right. intros [es H]. discriminate.
  - right. intros [es H]. discriminate.
Qed.

Lemma scan_for_wav_run dir entries w :
  (exists b, scan_for_wav dir entries w = (Ok b, w)) \/
  (exists e, scan_for_wav dir entries w = (Err e, w) /\
             forall code, e <> SystemExit code).
Proof.
  pose proof (scan_for_wav_world dir entries w) as Hw.
  pose proof (scan_for_wav_raises dir entries w) as He.
  destruct (scan_for_wav dir entries w) as [[b|e] w']; simpl in *; subst w'.
  - left. now exists b.
  - right. exists e. split; [reflexivity | now apply He].
Qed.

Lemma bind_ok_raises {A B : Type} (c : M A) (k : A -> M B) w a w1 :
  c w = (Ok a, w1) ->
  (exists e w', k a w1 = (Err e, w') /\ forall code, e <> SystemExit code) ->
  exists e w', bind c k w = (Err e, w') /\ forall code, e <> SystemExit code.
Proof. intros Hc. unfold bind. now rewrite Hc. Qed.

Tactic Notation "step_with" tactic3(tac) :=
  eapply bind_ok_raises; [ tac | cbv beta iota zeta ].

(** Whenever one of the two input paths is no directory, the run of
    [check_options] ends in the exception of [os.listdir] (or in one
    raised while the first directory is scanned), not in [sys.exit]. *)
Lemma check_options_missing_input_raises d1 d2 out cs u w :
  ~ is_directory (fs w) d1 \/ ~ is_directory (fs w) d2 ->
  exists e w', check_options d1 d2 out cs u w = (Err e, w') /\
               forall code, e <> SystemExit code.
Proof.
  intros Hmiss. unfold check_options. cbv zeta.
  destruct (classic_dir (fs w) d1) as [Hd1 | Hd1].
  - destruct Hmiss as [Hmiss | Hd2]; [contradiction|].
    destruct Hd1 as [es1 Hes1].
    step_with (apply isdir_true; eexists; exact Hes1).
    change (negb true) with false. cbv iota. step_with reflexivity.
    step_with (apply isdir_false; exact Hd2).
    change (negb false) with true. cbv iota.
    step_with reflexivity.
    step_with (apply listdir_dir; exact Hes1).
    set (w1 := with_stdout _ w).
    destruct (scan_for_wav_run d1 es1 w1) as [[b Hb] | (e & He & Hne)].
    + step_with (exact Hb).
      assert (Hl : exists e, forall w2, fs w2 = fs w ->
                     listdir d2 w2 = (Err e, w2) /\
                     forall code, e <> SystemExit code).
      { destruct (listdir_not_dir d2 w Hd2) as (e & He & Hne).
        exists e. intros w2 Hfs. split; [|exact Hne].
        unfold listdir in *. rewrite Hfs.
        destruct (fs w !! d2) as [[es|hdr]|]; congruence. }
      destruct Hl as (e & Hl).
      destruct b.
      * step_with reflexivity.
        destruct (Hl w1 eq_refl) as [Hl1 Hne].
        exists e, w1. split; [|exact Hne]. now apply bind_err.
      * step_with reflexivity.
        set (w2 := with_stdout _ w1).
        destruct (Hl w2 eq_refl) as [Hl2 Hne].
        exists e, w2. split; [|exact Hne]. now apply bind_err.
    + exists e, w1. split; [|exact Hne]. now apply bind_err.
  - step_with (apply isdir_false; exact Hd1).
    change (negb false) with true. cbv iota.
    step_with reflexivity.
    set (w1 := with_stdout _ w).
    destruct (isdir_total d2 w1) as [b Hb].
    step_with (exact Hb).
    assert (Hl : exists e, forall w2, fs w2 = fs w ->
                   listdir d1 w2 = (Err e, w2) /\
                   forall code, e <> SystemExit code).
    { destruct (listdir_not_dir d1 w Hd1) as (e & He & Hne).
      exists e. intros w2 Hfs. split; [|exact Hne].
      unfold listdir in *. rewrite Hfs.
      destruct (fs w !! d1) as [[es|hdr]|]; congruence. }
    destruct Hl as (e & Hl).
    destruct b; simpl negb; cbv iota.
    + step_with reflexivity.
      destruct (Hl w1 eq_refl) as [Hl1 Hne].
      exists e, w1. split; [|exact Hne]. now apply bind_err.
    + step_with reflexivity.
      set (w2 := with_stdout _ w1).
      destruct (Hl w2 eq_refl) as [Hl2 Hne].
      exists e, w2. split; [|exact Hne]. now apply bind_err.
Qed.

(** C2, at a first input directory that does not exist: the message
    about the directory is printed, then [os.listdir] raises and the
    exception leaves [check_options]; the usage text is not printed and
    [sys.exit(1)] is not reached.  The same happens for the second
    input directory. *)
Theorem check_options_missing_input_dir_escapes :
  check_options "missing" "donor" "out" (PyInt 100) usage sample_world =
    (Err (FileNotFoundError "missing"),
     with_stdout [Print msg_no_dir1] sample_world) /\
  check_options "target" "missing" "out" (PyInt 100) usage sample_world =
    (Err (FileNotFoundError "missing"),
     with_stdout [Print msg_no_dir2] sample_world).
Proof. split; vm_compute; reflexivity. Qed.

(** ** Input directories without a wav *)

Lemma bind_ok_post {A B : Type} (P : result B * world -> Prop)
    (c : M A) (k : A -> M B) w a w1 :
  c w = (Ok a, w1) -> P (k a w1) -> P (bind c k w).
Proof. intros Hc. unfold bind. now rewrite Hc. Qed.

Tactic Notation "post_with" tactic3(tac) :=
  eapply bind_ok_post; [ tac | cbv beta iota zeta ].

Lemma scan_for_wav_exhausted dir entries w :
  Forall (fun f => exists hdr, fs w !! join dir f = Some (File hdr) /\
                               is_wav hdr = false) entries ->
  scan_for_wav dir entries w = (Ok false, w).
Proof.
  induction 1 as [|f rest (hdr & Hf & Hwav) _ IH]; simpl; [reflexivity|].
  erewrite bind_ok by (unfold sndhdr_what; rewrite Hf; reflexivity).
  destruct hdr as [h|]; simpl in Hwav; [rewrite Hwav|]; exact IH.
Qed.

Lemma scan_for_wav_files dir entries w :
  Forall (fun f => exists hdr, fs w !! join dir f = Some (File hdr)) entries ->
  exists b, scan_for_wav dir entries w = (Ok b, w).
Proof.
  induction 1 as [|f rest (hdr & Hf) _ (b & IH)]; simpl;
    [now exists false|].
  erewrite bind_ok by (unfold sndhdr_what; rewrite Hf; reflexivity).
  destruct hdr as [h|]; [|now exists b].
  destruct (String.eqb (filetype h) "wav"); [now exists true | now exists b].
Qed.

(** Once [is_invalid] is set, the rest of [check_options] (output
    directory, chunk size, final test) ends in the usage text and
    [sys.exit(1)], and keeps what was printed before. *)
Ltac finish_invalid :=
  repeat match goal with
         | |- context [bind (isdir ?p) _ ?w] =>
             let b := fresh "b" in let H := fresh "H" in
             destruct (isdir_total p w) as [b H];
             post_with (exact H); destruct b; cbn [negb]; cbv iota
         | |- context [bind (try_except (bind (makedirs ?p) _) _) _ ?w] =>
             let H := fresh "H" in
             destruct (makedirs_result p w) as [(? & H & _ & ?) | (? & H & _)];
             [ post_with (unfold try_except; erewrite bind_ok by exact H;
                          reflexivity)
             | post_with (unfold try_except; erewrite bind_err by exact H;
                          reflexivity) ]
         | |- context [bind (ret _) _ _] => post_with reflexivity
         | |- context [bind (bind (print _) _) _ _] => post_with reflexivity
         | |- context [if ?c then bind (print msg_chunk_range) _ else _] =>
             destruct c
         | |- context [match ?v with PyNone => _ | _ => _ end] => destruct v
         end.

(** When both input directories can be listed and hold plain files
    only, a first directory without a wav is reported in full: the
    message, later the usage text, and [sys.exit(1)]. *)
Lemma check_options_reports_no_wavs1 d1 d2 out cs u w es1 es2 :
  fs w !! d1 = Some (Dir es1) -> fs w !! d2 = Some (Dir es2) ->
  Forall (fun f => exists hdr, fs w !! join d1 f = Some (File hdr) /\
                               is_wav hdr = false) es1 ->
  Forall (fun f => exists hdr, fs w !! join d2 f = Some (File hdr)) es2 ->
  exists w', check_options d1 d2 out cs u w = (Err (SystemExit 1), w') /\
             In (Print msg_no_wavs1) (stdout w') /\
             exists evs, stdout w' = (evs ++ [Print u])%list.
Proof.
  intros Hd1 Hd2 Hes1 Hes2.
  unfold check_options. cbv zeta.
  post_with (apply isdir_true; eexists; exact Hd1).
  cbn [negb]. post_with reflexivity.
  post_with (apply isdir_true; eexists; exact Hd2).
  cbn [negb]. post_with reflexivity.
  post_with (apply listdir_dir; exact Hd1).
  post_with (apply scan_for_wav_exhausted; exact Hes1).
  post_with reflexivity.
  set (w1 := with_stdout _ w).
  post_with (apply (listdir_dir d2 es2 w1); exact Hd2).
  destruct (scan_for_wav_files d2 es2 w1 Hes2) as [b2 Hb2].
  post_with (exact Hb2).
  assert (Hin : In (Print msg_no_wavs1) (stdout w1))
    by (subst w1; simpl; rewrite in_app_iff; simpl; tauto).
  clearbody w1.
  destruct b2; finish_invalid;
    (eexists; split; [reflexivity|]; simpl;
     repeat match goal with
            | Hs : stdout ?x = stdout _ |- _ => rewrite Hs; clear Hs
            end;
     split; [ simpl; rewrite ?in_app_iff; tauto | eexists; reflexivity ]).
Qed.

(** C5, at a first input directory that holds one text file and a
    second input directory that does not exist: the message about the
    missing wavs is printed, then [os.listdir] raises on the second
    directory; the usage text is not printed and [sys.exit(1)] is not
    reached. *)
Theorem check_options_no_wavs_report_lost :
  check_options "texts" "missing" "out" (PyInt 100) usage sample_world =
    (Err (FileNotFoundError "missing"),
     with_stdout [Print msg_no_dir2; Print msg_no_wavs1] sample_world).
Proof. vm_compute. reflexivity. Qed.

(** ** The option loop *)

(** One turn of the loop, option by option. *)
Lemma option_step_eq l opt arg w :
  option_step l opt arg w =
  if String.eqb opt "--input1" then (Ok (set_input_dir1 arg l), w)
  else if String.eqb opt "--input2" then (Ok (set_input_dir2 arg l), w)
  else if String.eqb opt "--output" then (Ok (set_output_dir arg l), w)
  else if String.eqb opt "--chunk_size" then
    match parse_int arg with
    | Some n => (Ok (set_chunk_size n l), w)
    | None => (Err (ValueError arg), w)
    end
  else if String.eqb opt "-v" then (Ok (set_is_verbose l), w)
  else if String.eqb opt "-m" then (Ok (set_is_mp l), w)
  else if String.eqb opt "-c" then (Ok (set_cores arg l), w)
  else if String.eqb opt "-h" then
    (Err (SystemExit 0), with_stdout (stdout w ++ [Print usage]) w)
  else (Ok l, w).
Proof.
  unfold option_step, is_not_None.
  destruct (String.eqb_spec opt "--input1") as [->|]; [reflexivity|].
  destruct (String.eqb_spec opt "--input2") as [->|]; [reflexivity|].
  destruct (String.eqb_spec opt "--output") as [->|]; [reflexivity|].
  destruct (String.eqb_spec opt "--chunk_size") as [->|].
  { unfold bind, lift, py_int, ret.
    destruct (parse_int arg); reflexivity. }
  destruct (String.eqb_spec opt "-v") as [->|]; [reflexivity|].
  destruct (String.eqb_spec opt "-m") as [->|]; [reflexivity|].
  destruct (String.eqb_spec opt "-c") as [->|]; [reflexivity|].
  destruct (String.eqb_spec opt "-h") as [->|]; reflexivity.
Qed.

Lemma records_refl l : records l [] l.
Proof.
  unfold records. simpl. rewrite !orb_false_r.
  repeat split; lia.
Qed.

(** Case analysis on the option of one turn. *)
Ltac option_cases opt :=
  destruct (String.eqb_spec opt "--input1") as [->|?];
  [|destruct (String.eqb_spec opt "--input2") as [->|?];
  [|destruct (String.eqb_spec opt "--output") as [->|?];
  [|destruct (String.eqb_spec opt "--chunk_size") as [->|?];
  [|destruct (String.eqb_spec opt "-v") as [->|?];
  [|destruct (String.eqb_spec opt "-m") as [->|?];
  [|destruct (String.eqb_spec opt "-c") as [->|?];
  [|destruct (String.eqb_spec opt "-h") as [->|?]]]]]]]].

Ltac other_option :=
  repeat match goal with
         | H : ?o <> ?s |- context [String.eqb ?o ?s] =>
             rewrite (proj2 (String.eqb_neq o s) H)
         end.

(** One more option in front: how the record of the rest extends. *)
Lemma records_cons l0 opt arg rest l1 l w :
  option_step l0 opt arg w = (Ok l1, w) ->
  records l1 rest l -> records l0 ((opt, arg) :: rest) l.
Proof.
  rewrite option_step_eq. unfold records.
  intros Hstep (H1 & H2 & H3 & H4 & H5 & H6 & H7 & H8).
  rewrite H1, H2, H3, H4, H5, H6, H7, H8. clear H1 H2 H3 H4 H5 H6 H7 H8.
  cbn [last_arg occurrences].
  assert (Hpos : forall name, 0 <= occurrences name rest).
  { intros name. induction rest as [|[o a] r IH]; simpl; [lia|].
    destruct (String.eqb o name); lia. }
  pose proof (Hpos "-v"). pose proof (Hpos "-m").
  option_cases opt; cbn in Hstep |- *; other_option;
    try (destruct (parse_int arg) eqn:Hp; [|discriminate]);
    try discriminate;
    injection Hstep as <-; cbn;
    repeat split;
    repeat match goal with
           | |- context [last_arg ?n rest] => destruct (last_arg n rest)
           end;
    cbn; try reflexivity; try congruence; try lia;
    try (destruct (is_verbose l0)); try (destruct (is_mp l0));
    cbn; try reflexivity;
    try (symmetry; apply Z.ltb_lt; lia);
    try (destruct (0 <? occurrences "-v" rest) eqn:E;
         [symmetry; apply Z.ltb_lt; apply Z.ltb_lt in E; lia
         |symmetry; apply Z.ltb_ge; apply Z.ltb_ge in E; lia]);
    try (destruct (0 <? occurrences "-m" rest) eqn:E;
         [symmetry; apply Z.ltb_lt; apply Z.ltb_lt in E; lia
         |symmetry; apply Z.ltb_ge; apply Z.ltb_ge in E; lia]).
Qed.

Lemma option_step_ok l0 opt arg w l1 w1 :
  option_step l0 opt arg w = (Ok l1, w1) ->
  w1 = w /\ opt <> "-h" /\ (opt = "--chunk_size" -> parse_int arg <> None).
Proof.
  rewrite option_step_eq.
  option_cases opt; cbn; other_option;
    try (destruct (parse_int arg) eqn:Hp; [|discriminate]);
    try discriminate;
    intros [= <- <-]; repeat split; congruence.
Qed.

Lemma option_step_total l0 opt arg w :
  opt <> "-h" -> (opt = "--chunk_size" -> parse_int arg <> None) ->
  exists l1, option_step l0 opt arg w = (Ok l1, w).
Proof.
  intros Hh Hp. rewrite option_step_eq.
  option_cases opt; cbn; other_option; try (eexists; reflexivity).
  - destruct (parse_int arg); [eexists; reflexivity | now destruct Hp].
  - now destruct Hh.
Qed.

(** A loop that comes to its end has printed nothing, has met no [-h]
    and only integer chunk sizes, and leaves the locals as [records]
    says. *)
Lemma option_loop_ok options : forall l0 w l w',
  option_loop l0 options w = (Ok l, w') ->
  w' = w /\ records l0 options l /\
  ~ In "-h" (names options) /\ chunk_sizes_parse options.
Proof.
  induction options as [|[opt arg] rest IH]; intros l0 w l w' Hrun.
  - injection Hrun as <- <-.
    split; [reflexivity|]. split; [apply records_refl|].
    split; [now intros [] | now intros a []].
  - simpl in Hrun. unfold bind in Hrun.
    destruct (option_step l0 opt arg w) as [[l1|e] w1] eqn:Hstep; [|discriminate].
    destruct (option_step_ok _ _ _ _ _ _ Hstep) as (-> & Hh & Hp).
    destruct (IH _ _ _ _ Hrun) as (-> & Hrec & Hnh & Hcs).
    split; [reflexivity|]. split; [eapply records_cons; eassumption|].
    split.
    + simpl. intros [Heq | Hin]; [now destruct Hh | contradiction].
    + intros a [Heq | Hin]; [|now apply Hcs].
      injection Heq as -> ->. now apply Hp.
Qed.

Lemma option_loop_total options : forall l0 w,
  ~ In "-h" (names options) -> chunk_sizes_parse options ->
  exists l, option_loop l0 options w = (Ok l, w).
Proof.
  induction options as [|[opt arg] rest IH]; intros l0 w Hnh Hcs.
  - now exists l0.
  - destruct (option_step_total l0 opt arg w) as [l1 Hstep].
    + intros ->. apply Hnh. now left.
    + intros ->. apply Hcs. now left.
    + destruct (IH l1 w) as [l Hrun].
      * intros Hin. apply Hnh. now right.
      * intros a Hin. apply Hcs. now right.
      * exists l. simpl. now rewrite (bind_ok _ _ _ _ _ Hstep).
Qed.

Lemma option_loop_app pre rest : forall l0 w,
  option_loop l0 (pre ++ rest) w =
  bind (option_loop l0 pre) (fun l => option_loop l rest) w.
Proof.
  induction pre as [|[opt arg] pre IH]; intros l0 w; [reflexivity|].
  simpl. unfold bind.
  destruct (option_step l0 opt arg w) as [[l1|e] w1]; [|reflexivity].
  rewrite IH. reflexivity.
Qed.

Lemma occurrences_nonneg name options : 0 <= occurrences name options.
Proof.
  induction options as [|[o a] r IH]; simpl; [lia|].
  destruct (String.eqb o name); lia.
Qed.

Lemma occurrences_In name options :
  0 < occurrences name options <-> In name (names options).
Proof.
  induction options as [|[o a] r IH]; simpl; [lia|].
  pose proof (occurrences_nonneg name r).
  destruct (String.eqb_spec o name) as [->|Hne].
  - split; [now left | lia].
  - rewrite Z.add_0_l, IH. split; [now right | now intros [|]].
Qed.

Lemma last_arg_In name options arg :
  last_arg name options = Some arg ->
  In (name, arg) options /\ In name (names options).
Proof.
  induction options as [|[o a] r IH]; simpl; [discriminate|].
  destruct (last_arg name r) as [x|].
  - intros [= ->]. destruct (IH eq_refl). split; now right.
  - destruct (String.eqb_spec o name) as [->|]; [|discriminate].
    intros [= ->]. split; now left.
Qed.

Lemma last_arg_Some name options :
  In name (names options) -> exists arg,
  last_arg name options = Some arg /\ In (name, arg) options.
Proof.
  induction options as [|[o a] r IH]; simpl; [tauto|].
  intros Hin.
  destruct (last_arg name r) as [x|] eqn:Hlast.
  - exists x. split; [reflexivity|]. right.
    destruct (last_arg_In name r x Hlast) as [Hx _]. exact Hx.
  - destruct Hin as [-> | Hin].
    + rewrite String.eqb_refl. exists a. split; [reflexivity | now left].
    + destruct (IH Hin) as (x & Hx & _). discriminate.
Qed.

Lemma last_arg_None name options :
  ~ In name (names options) -> last_arg name options = None.
Proof.
  induction options as [|[o a] r IH]; simpl; [reflexivity|].
  intros Hnin. rewrite IH by tauto.
  destruct (String.eqb_spec o name); [tauto | reflexivity].
Qed.

(** ** What [process_options] returns *)

(** A run of [process_options] that returns has gone through the whole
    loop, has counted four mandatory options, has found the four
    variables bound and has passed [check_options]. *)
Lemma process_options_ok options w s w' :
  process_options options w = (Ok s, w') ->
  exists l i1 i2 o n,
    option_loop initial_locals options w = (Ok l, w) /\
    mandatory_checks l = 4 /\
    input_dir1 l = Some i1 /\ input_dir2 l = Some i2 /\
    output_dir l = Some o /\ chunk_size l = Some n /\
    check_options i1 i2 o (PyInt n) usage w = (Ok tt, w') /\
    s = (i1, i2, o, n, is_verbose l, is_mp l, cores l).
Proof.
  unfold process_options. unfold bind at 1.
  destruct (option_loop initial_locals options w) as [[l|e] w1] eqn:Hloop;
    [|discriminate].
  destruct (option_loop_ok _ _ _ _ _ Hloop) as (-> & _).
  destruct (mandatory_checks l =? 4) eqn:Hfour; cbn [negb]; cbv beta iota.
  - unfold check_and_return, bind, read_local, ret, raise.
    destruct (input_dir1 l) as [i1|] eqn:Hi1; [|discriminate].
    destruct (input_dir2 l) as [i2|] eqn:Hi2; [|discriminate].
    destruct (output_dir l) as [o|] eqn:Ho; [|discriminate].
    destruct (chunk_size l) as [n|] eqn:Hn; [|discriminate].
    destruct (check_options i1 i2 o (PyInt n) usage w) as [[[]|e] w2] eqn:Hcheck;
      cbv beta iota; [|discriminate].
    intros [= <- <-].
    exists l, i1, i2, o, n. apply Z.eqb_eq in Hfour.
    rewrite Hi1, Hi2, Ho, Hn. repeat split; assumption.
  - unfold bind, print, sys_exit, raise. discriminate.
Qed.

(** C7: when [-m] is among the options and [-c] is not, the settings
    that [process_options] returns have multiprocessing on and the
    integer 2 as the number of cores. *)
Theorem cores_default_with_multiprocessing options w s w' :
  In "-m" (names options) -> ~ In "-c" (names options) ->
  process_options options w = (Ok s, w') ->
  settings_cores s = PyInt 2 /\ settings_is_mp s = true.
Proof.
  intros Hm Hc Hrun.
  destruct (process_options_ok _ _ _ _ Hrun)
    as (l & i1 & i2 & o & n & Hloop & _ & _ & _ & _ & _ & _ & ->).
  destruct (option_loop_ok _ _ _ _ _ Hloop) as (_ & Hrec & _).
  destruct Hrec as (_ & _ & _ & _ & _ & Hmp & Hcores & _).
  unfold settings_cores, settings_is_mp. simpl.
  rewrite Hcores, Hmp, (last_arg_None _ _ Hc).
  split; [reflexivity|].
  apply occurrences_In in Hm. apply Z.ltb_lt in Hm. now rewrite Hm.
Qed.

Lemma cores_default_with_multiprocessing_witness :
  settings_cores sample_settings = PyInt 2 /\
  settings_is_mp sample_settings = true.
Proof.
  apply (cores_default_with_multiprocessing sample_options sample_world
           sample_settings sample_world).
  - cbn. tauto.
  - cbn. intros [H|[H|[H|[H|[H|[]]]]]]; discriminate H.
  - vm_compute. reflexivity.
Defined.

(** C9: the number of cores that [process_options] returns is the
    argument of the last [-c] as the string it came in, and the integer
    2 exactly when no [-c] was given. *)
Theorem cores_is_raw_argument options w s w' :
  process_options options w = (Ok s, w') ->
  settings_cores s = match last_arg "-c" options with
                     | Some arg => PyStr arg
                     | None => PyInt 2
                     end /\
  (settings_cores s = PyInt 2 <-> ~ In "-c" (names options)).
Proof.
  intros Hrun.
  destruct (process_options_ok _ _ _ _ Hrun)
    as (l & i1 & i2 & o & n & Hloop & _ & _ & _ & _ & _ & _ & ->).
  destruct (option_loop_ok _ _ _ _ _ Hloop) as (_ & Hrec & _).
  destruct Hrec as (_ & _ & _ & _ & _ & _ & Hcores & _).
  unfold settings_cores. simpl. rewrite Hcores. simpl.
  split; [reflexivity|].
  destruct (last_arg "-c" options) as [arg|] eqn:Hlast.
  - split; [discriminate|].
    intros Hnin. destruct Hnin. now apply (last_arg_In _ _ _ Hlast).
  - split; [|reflexivity]. intros _ Hin.
    destruct (last_arg_Some _ _ Hin) as (arg & Harg & _). congruence.
Qed.

Lemma cores_is_raw_argument_witness :
  settings_cores sample_settings_cores = PyStr "4" /\
  (settings_cores sample_settings_cores = PyInt 2 <->
   ~ In "-c" (names sample_options_cores)).
Proof.
  apply (cores_is_raw_argument sample_options_cores sample_world
           sample_settings_cores sample_world).
  vm_compute. reflexivity.
Defined.

(** ** The call of [getopt] *)

Lemma long_has_args_raises opt lo e :
  long_has_args opt lo = Err e -> exists msg o, e = GetoptError msg o.
Proof.
  unfold long_has_args.
  destruct (List.filter (String.prefix opt) lo) as [|p [|q r]];
    repeat match goal with
           | |- context [if ?b then _ else _] => destruct b
           end;
    intros [= <-] || discriminate; eauto.
Qed.

Lemma do_longs_spec opts opt lo args :
  match do_longs opts opt lo args with
  | Ok (opts', args') => (length args' <= length args)%nat
  | Err e => exists msg o, e = GetoptError msg o
  end.
Proof.
  unfold do_longs.
  destruct (split_at_equals opt) as [name optarg].
  destruct (long_has_args name lo) as [[has_arg full]|e] eqn:Hl;
    [|exact (long_has_args_raises _ _ _ Hl)].
  destruct has_arg, optarg as [oa|]; try destruct args as [|a rest];
    simpl; eauto; lia.
Qed.

Lemma short_has_arg_raises opt so e :
  short_has_arg opt so = Err e -> exists msg o, e = GetoptError msg o.
Proof.
  induction so as [|c r IH]; simpl.
  - intros [= <-]. eauto.
  - destruct (Ascii.eqb opt c && negb (Ascii.eqb c ":")); [discriminate | exact IH].
Qed.

Lemma do_shorts_spec optstring : forall opts so args,
  match do_shorts opts optstring so args with
  | Ok (opts', args') => (length args' <= length args)%nat
  | Err e => exists msg o, e = GetoptError msg o
  end.
Proof.
  induction optstring as [|c r IH]; intros opts so args; simpl; [lia|].
  destruct (short_has_arg c so) as [[|]|e] eqn:Hs.
  - destruct r; [destruct args as [|a rest]|]; simpl; eauto; lia.
  - apply IH.
  - exact (short_has_arg_raises _ _ _ Hs).
Qed.

(** The loop of [getopt] does not run out of turns: with at least as
    many turns as words it gives what it gives with one turn a word. *)
Lemma getopt_loop_enough so lo fuel : forall opts args,
  (length args <= fuel)%nat ->
  getopt_loop fuel opts args so lo = getopt_loop (length args) opts args so lo.
Proof.
  induction fuel as [fuel IH] using lt_wf_ind.
  intros opts args Hlen.
  destruct args as [|arg rest]; [now destruct fuel|].
  destruct fuel as [|fuel]; [simpl in Hlen; lia|].
  cbn [getopt_loop length].
  destruct (String.prefix "-" arg && negb (String.eqb arg "-")); [|reflexivity].
  destruct (String.eqb arg "--"); [reflexivity|].
  set (step := if String.prefix "--" arg
               then do_longs opts (drop_chars 2 arg) lo rest
               else do_shorts opts (drop_chars 1 arg) so rest).
  assert (Hstep : match step with
                  | Ok (_, args') => (length args' <= length rest)%nat
                  | Err _ => True
                  end).
  { subst step. destruct (String.prefix "--" arg).
    - pose proof (do_longs_spec opts (drop_chars 2 arg) lo rest) as H.
      destruct (do_longs opts (drop_chars 2 arg) lo rest) as [[? ?]|?]; tauto.
    - pose proof (do_shorts_spec (drop_chars 1 arg) opts so rest) as H.
      destruct (do_shorts opts (drop_chars 1 arg) so rest) as [[? ?]|?]; tauto. }
  destruct step as [[opts' args']|e]; [|reflexivity].
  simpl in Hlen.
  rewrite (IH fuel ltac:(lia) opts' args' ltac:(lia)).
  destruct (Nat.eq_dec (length args') (length rest)) as [->|Hne];
    [reflexivity|].
  symmetry. apply IH; lia.
Qed.

(** [getopt] raises nothing but [GetoptError]. *)
Lemma getopt_loop_raises so lo fuel : forall opts args e,
  getopt_loop fuel opts args so lo = Err e ->
  exists msg o, e = GetoptError msg o.
Proof.
  induction fuel as [|fuel IH]; intros opts args e; cbn [getopt_loop];
    [discriminate|].
  destruct args as [|arg rest]; [discriminate|].
  destruct (String.prefix "-" arg && negb (String.eqb arg "-")); [|discriminate].
  destruct (String.eqb arg "--"); [discriminate|].
  destruct (String.prefix "--" arg).
  - pose proof (do_longs_spec opts (drop_chars 2 arg) lo rest) as H.
    destruct (do_longs opts (drop_chars 2 arg) lo rest) as [[? ?]|?].
    + apply IH.
    + now intros [= <-].
  - pose proof (do_shorts_spec (drop_chars 1 arg) opts so rest) as H.
    destruct (do_shorts opts (drop_chars 1 arg) so rest) as [[? ?]|?].
    + apply IH.
    + now intros [= <-].
Qed.

Lemma getopt_raises args so lo e :
  getopt args so lo = Err e -> exists msg o, e = GetoptError msg o.
Proof. apply getopt_loop_raises. Qed.

(** On a command line that [getopt] takes, the run is that of the rest
    of the function on the options; on one that it refuses, the run is
    the exception, and nothing else has happened. *)
Lemma process_options_argv_accepted argv options w :
  accepted argv options ->
  process_options_argv argv w = process_options options w.
Proof.
  intros [rest Hget]. unfold process_options_argv, bind, lift.
  now rewrite Hget.
Qed.

Lemma process_options_argv_refused argv e w :
  getopt argv shortopts longopts = Err e ->
  process_options_argv argv w = (Err e, w).
Proof.
  intros Hget. unfold process_options_argv, bind, lift. now rewrite Hget.
Qed.

Lemma chunk_sizes_convert_parse options :
  chunk_sizes_convert options -> chunk_sizes_parse options.
Proof. intros H arg Hin. now destruct (H arg Hin) as (_ & _ & Hp). Qed.

Lemma sample_argv_accepted : accepted sample_argv sample_options.
Proof. exists []. vm_compute. reflexivity. Qed.

Lemma argv_input1_only_accepted : accepted argv_input1_only input1_only.
Proof. exists []. vm_compute. reflexivity. Qed.

Lemma ascii_only_check s :
  forallb (fun c => Nat.ltb (nat_of_ascii c) 128) (list_ascii_of_string s)
    = true ->
  ascii_only s.
Proof.
  unfold ascii_only. rewrite forallb_forall, List.Forall_forall.
  intros H c Hc. apply Nat.ltb_lt. now apply H.
Qed.

Lemma sample_options_convert : chunk_sizes_convert sample_options.
Proof.
  intros arg [H|[H|[H|[H|[H|[]]]]]]; try discriminate H.
  injection H as <-. split; [|split].
  - apply ascii_only_check. vm_compute. reflexivity.
  - vm_compute. lia.
  - vm_compute. discriminate.
Qed.

Lemma input1_only_convert : chunk_sizes_convert input1_only.
Proof. intros arg [H|[]]. discriminate H. Qed.

Lemma input1_only_ascii : chunk_sizes_ascii input1_only.
Proof. intros arg [H|[]]. discriminate H. Qed.

(** ** The mandatory-option check *)

(** C4 fails at a command line that holds [-h] alone: none of the four
    mandatory options is given, yet no error is printed and the run
    leaves with status 0 after the usage text.  It fails as well at a
    command line that holds one chunk size that is no integer: three
    mandatory options are absent, and the run ends in the [ValueError]
    of [int] with nothing printed.  And it fails at a command line
    with an option that [getopt] does not know: three mandatory
    options are absent, and the run ends in [GetoptError] with nothing
    printed. *)
Lemma process_options_help_without_mandatory :
  (process_options help_only sample_world =
     (Err (SystemExit 0), with_stdout [Print usage] sample_world) /\
   exit_status (fst (process_options help_only sample_world)) <> 1) /\
  process_options bad_chunk_only sample_world =
    (Err (ValueError "abc"), sample_world) /\
  process_options_argv argv_help_only sample_world =
    (Err (SystemExit 0), with_stdout [Print usage] sample_world) /\
  process_options_argv argv_bad_chunk_only sample_world =
    (Err (ValueError "abc"), sample_world) /\
  process_options_argv argv_unknown_option sample_world =
    (Err unknown_option, sample_world).
Proof.
  split; [split|split; [|split; [|split]]]; vm_compute;
    [reflexivity | discriminate | reflexivity..].
Qed.

(** The check counts options; it does not tell them apart.  With
    [--input1] given twice and [--chunk_size] left out the count is 4
    and the run goes on to read a variable that was never bound. *)
Lemma process_options_repeated_option :
  process_options input1_twice sample_world =
    (Err (UnboundLocalError "chunk_size"), sample_world).
Proof. vm_compute. reflexivity. Qed.

Lemma mandatory_count options :
  (forall name, In name mandatory -> occurrences name options <= 1) ->
  (occurrences "--input1" options + occurrences "--input2" options
   + occurrences "--output" options + occurrences "--chunk_size" options = 4
   <-> forall name, In name mandatory -> In name (names options)).
Proof.
  intros Hone.
  pose proof (Hone "--input1" ltac:(cbn; tauto)).
  pose proof (Hone "--input2" ltac:(cbn; tauto)).
  pose proof (Hone "--output" ltac:(cbn; tauto)).
  pose proof (Hone "--chunk_size" ltac:(cbn; tauto)).
  pose proof (occurrences_nonneg "--input1" options).
  pose proof (occurrences_nonneg "--input2" options).
  pose proof (occurrences_nonneg "--output" options).
  pose proof (occurrences_nonneg "--chunk_size" options).
  split.
  - intros Hsum name [<-|[<-|[<-|[<-|[]]]]]; apply occurrences_In; lia.
  - intros Hall.
    pose proof (proj2 (occurrences_In "--input1" options) (Hall "--input1" ltac:(cbn; tauto))).
    pose proof (proj2 (occurrences_In "--input2" options) (Hall "--input2" ltac:(cbn; tauto))).
    pose proof (proj2 (occurrences_In "--output" options) (Hall "--output" ltac:(cbn; tauto))).
    pose proof (proj2 (occurrences_In "--chunk_size" options) (Hall "--chunk_size" ltac:(cbn; tauto))).
    lia.
Qed.

(** After [getopt]: on options without [-h], whose chunk sizes are
    integer literals and among which no mandatory option comes twice,
    the check is passed exactly when each of the four is there. *)
Lemma mandatory_check_on_options options w :
  ~ In "-h" (names options) -> chunk_sizes_parse options ->
  (forall name, In name mandatory -> occurrences name options <= 1) ->
  ((forall name, In name mandatory -> In name (names options)) ->
   exists i1 i2 o arg n v mp c,
     In ("--input1", i1) options /\ In ("--input2", i2) options /\
     In ("--output", o) options /\ In ("--chunk_size", arg) options /\
     parse_int arg = Some n /\
     process_options options w =
     (check_options i1 i2 o (PyInt n) usage ;;;
      ret (i1, i2, o, n, v, mp, c)) w) /\
  (~ (forall name, In name mandatory -> In name (names options)) ->
   process_options options w =
   (Err (SystemExit 1),
    with_stdout (stdout w ++ [Print msg_mandatory; Print usage]) w)).
Proof.
  intros Hnh Hcs Hone.
  destruct (option_loop_total options initial_locals w Hnh Hcs) as [l Hloop].
  destruct (option_loop_ok _ _ _ _ _ Hloop) as (_ & Hrec & _).
  destruct Hrec as (Hi1 & Hi2 & Ho & Hn & _ & _ & _ & Hcount).
  simpl in Hcount.
  pose proof (mandatory_count options Hone) as Hfour.
  split.
  - intros Hall.
    destruct (last_arg_Some "--input1" options (Hall "--input1" ltac:(cbn; tauto)))
      as (i1 & Hl1 & Hin1).
    destruct (last_arg_Some "--input2" options (Hall "--input2" ltac:(cbn; tauto)))
      as (i2 & Hl2 & Hin2).
    destruct (last_arg_Some "--output" options (Hall "--output" ltac:(cbn; tauto)))
      as (o & Hl3 & Hin3).
    destruct (last_arg_Some "--chunk_size" options (Hall "--chunk_size" ltac:(cbn; tauto)))
      as (arg & Hl4 & Hin4).
    rewrite Hl1 in Hi1. rewrite Hl2 in Hi2. rewrite Hl3 in Ho.
    rewrite Hl4 in Hn. simpl in Hi1, Hi2, Ho.
    destruct (parse_int arg) as [n|] eqn:Hp; [|now destruct (Hcs arg Hin4)].
    exists i1, i2, o, arg, n, (is_verbose l), (is_mp l), (cores l).
    repeat (split; [assumption|]).
    unfold process_options. rewrite (bind_ok _ _ _ _ _ Hloop).
    replace (mandatory_checks l =? 4) with true
      by (symmetry; apply Z.eqb_eq; rewrite Hcount; apply Hfour in Hall; lia).
    cbn [negb]. unfold check_and_return.
    rewrite Hi1, Hi2, Ho, Hn. reflexivity.
  - intros Hsome.
    unfold process_options. rewrite (bind_ok _ _ _ _ _ Hloop).
    replace (mandatory_checks l =? 4) with false
      by (symmetry; apply Z.eqb_neq; rewrite Hcount; intros Heq;
          apply Hsome, Hfour; lia).
    cbn [negb]. unfold bind, print, sys_exit, raise, with_stdout. simpl.
    now rewrite <- app_assoc.
Qed.

Lemma sample_options_clean :
  ~ In "-h" (names sample_options) /\ chunk_sizes_parse sample_options /\
  (forall name, In name mandatory -> occurrences name sample_options <= 1).
Proof.
  split; [|split].
  - cbn. intros [H|[H|[H|[H|[H|[]]]]]]; discriminate H.
  - intros arg [H|[H|[H|[H|[H|[]]]]]]; try discriminate H.
    injection H as <-. vm_compute. discriminate.
  - intros name [<-|[<-|[<-|[<-|[]]]]]; vm_compute; discriminate.
Qed.

Lemma input1_only_clean :
  ~ In "-h" (names input1_only) /\ chunk_sizes_parse input1_only /\
  (forall name, In name mandatory -> occurrences name input1_only <= 1).
Proof.
  split; [|split].
  - cbn. intros [H|[]]; discriminate H.
  - intros arg [H|[]]; discriminate H.
  - intros name [<-|[<-|[<-|[<-|[]]]]]; vm_compute; discriminate.
Qed.


(** C4, amended: a command line that [getopt] refuses ends in its
    exception with nothing printed.  On one that it takes, with no
    [-h] among the options, with chunk sizes that [int] converts and
    with no mandatory option given twice, [process_options] goes on to
    [check_options] and the [return] exactly when each of the four
    mandatory options is given; when one is absent it prints the error
    line and the usage text and leaves through [sys.exit(1)]. *)
Theorem process_options_mandatory_check argv w :
  (forall e, getopt argv shortopts longopts = Err e ->
     process_options_argv argv w = (Err e, w)) /\
  (forall options,
     accepted argv options ->
     ~ In "-h" (names options) -> chunk_sizes_convert options ->
     (forall name, In name mandatory -> occurrences name options <= 1) ->
     ((forall name, In name mandatory -> In name (names options)) ->
      exists i1 i2 o arg n v mp c,
        In ("--input1", i1) options /\ In ("--input2", i2) options /\
        In ("--output", o) options /\ In ("--chunk_size", arg) options /\
        parse_int arg = Some n /\
        process_options_argv argv w =
        (check_options i1 i2 o (PyInt n) usage ;;;
         ret (i1, i2, o, n, v, mp, c)) w) /\
     (~ (forall name, In name mandatory -> In name (names options)) ->
      process_options_argv argv w =
      (Err (SystemExit 1),
       with_stdout (stdout w ++ [Print msg_mandatory; Print usage]) w))).
Proof.
  split.
  - intros e. apply process_options_argv_refused.
  - intros options Hacc Hnh Hcs Hone.
    rewrite (process_options_argv_accepted _ _ w Hacc).
    apply mandatory_check_on_options;
      [exact Hnh | now apply chunk_sizes_convert_parse | exact Hone].
Qed.

Lemma process_options_mandatory_check_witness :
  process_options_argv argv_unknown_option sample_world =
    (Err unknown_option, sample_world) /\
  (exists i1 i2 o arg n v mp c,
     In ("--input1", i1) sample_options /\ In ("--input2", i2) sample_options /\
     In ("--output", o) sample_options /\ In ("--chunk_size", arg) sample_options /\
     parse_int arg = Some n /\
     process_options_argv sample_argv sample_world =
     (check_options i1 i2 o (PyInt n) usage ;;;
      ret (i1, i2, o, n, v, mp, c)) sample_world) /\
  process_options_argv argv_input1_only sample_world =
    (Err (SystemExit 1),
     with_stdout (stdout sample_world ++ [Print msg_mandatory; Print usage])
                 sample_world).
Proof.
  split; [|split].
  - apply (proj1 (process_options_mandatory_check argv_unknown_option
                    sample_world)).
    vm_compute. reflexivity.
  - apply (proj1 (proj2 (process_options_mandatory_check sample_argv
                           sample_world)
                    sample_options sample_argv_accepted
                    (proj1 sample_options_clean) sample_options_convert
                    (proj2 (proj2 sample_options_clean)))).
    intros name [<-|[<-|[<-|[<-|[]]]]]; cbn; tauto.
  - apply (proj2 (proj2 (process_options_mandatory_check argv_input1_only
                           sample_world)
                    input1_only argv_input1_only_accepted
                    (proj1 input1_only_clean) input1_only_convert
                    (proj2 (proj2 input1_only_clean)))).
    intros Hall. specialize (Hall "--output" ltac:(cbn; tauto)).
    cbn in Hall. destruct Hall as [H|[]]. discriminate H.
Defined.

(** ** Which exceptions leave, and what is printed *)

Section Throws.
Variable E : exn -> Prop.
Hypothesis E_plain : forall e, plain e -> E e.

Lemma throws_ret {A : Type} (a : A) : throws E (ret a).
Proof. intros w e w'. discriminate. Qed.

Lemma throws_raise {A : Type} (e : exn) : E e -> throws E (@raise A e).
Proof. intros He w e' w' [= <- _]. exact He. Qed.

Lemma throws_bind {A B : Type} (c : M A) (k : A -> M B) :
  throws E c -> (forall a, throws E (k a)) -> throws E (bind c k).
Proof.
  intros Hc Hk w e w'. unfold bind.
  destruct (c w) as [[a|e1] w1] eqn:Hcw.
  - apply Hk.
  - intros [= <- _]. eapply Hc. exact Hcw.
Qed.

Lemma throws_try_except {A : Type} (body : M A) (handler : exn -> M A) :
  (forall e, throws E (handler e)) -> throws E (try_except body handler).
Proof.
  intros Hh w e w'. unfold try_except.
  destruct (body w) as [[a|e1] w1]; [discriminate | apply Hh].
Qed.

Lemma throws_print line : throws E (print line).
Proof. intros w e w'. discriminate. Qed.

Lemma throws_print_exc e : throws E (print_exc e).
Proof. intros w e' w'. discriminate. Qed.

Lemma throws_isdir path : throws E (isdir path).
Proof.
  intros w e w'. unfold isdir.
  destruct (fs w !! path) as [[es|hdr]|]; discriminate.
Qed.

Lemma throws_listdir path : throws E (listdir path).
Proof.
  intros w e w'. unfold listdir.
  destruct (fs w !! path) as [[es|hdr]|]; intros [= <- _];
    apply E_plain; intros code; discriminate.
Qed.

Lemma throws_scan_for_wav dir entries : throws E (scan_for_wav dir entries).
Proof.
  intros w e w' Hrun. apply E_plain. intros code.
  apply (scan_for_wav_raises dir entries w e). now rewrite Hrun.
Qed.

Lemma throws_check_options d1 d2 out cs u :
  E (SystemExit 1) -> throws E (check_options d1 d2 out cs u).
Proof.
  intros Hexit. unfold check_options. cbv zeta.
  repeat first
    [ apply throws_ret | apply throws_print | apply throws_print_exc
    | apply throws_isdir | apply throws_listdir | apply throws_scan_for_wav
    | apply throws_raise; exact Hexit
    | apply throws_try_except; intros ?
    | apply throws_bind; [|intros ?]
    | match goal with
      | |- throws _ (if ?b then _ else _) => destruct b
      | |- throws _ (match ?v with PyNone => _ | _ => _ end) => destruct v
      end ].
Qed.
End Throws.

Section NeverPrints.
Variable ev : event.










End NeverPrints.




(** The loop raises in two ways only: [sys.exit(0)] at a [-h], or the
    [ValueError] of [int] at a [--chunk_size], before anything is
    printed. *)
Lemma option_loop_raises options : forall l0 w e w',
  option_loop l0 options w = (Err e, w') ->
  (In "-h" (names options) /\ e = SystemExit 0) \/
  (exists arg, e = ValueError arg /\ w' = w).
Proof.
  induction options as [|[opt arg] rest IH]; intros l0 w e w' Hrun;
    [discriminate|].
  simpl in Hrun. unfold bind in Hrun.
  destruct (option_step l0 opt arg w) as [[l1|e1] w1] eqn:Hstep.
  - destruct (option_step_ok _ _ _ _ _ _ Hstep) as (-> & _).
    destruct (IH _ _ _ _ Hrun) as [[Hin ->] | Hval].
    + left. split; [now right | reflexivity].
    + now right.
  - injection Hrun as <- <-. rewrite option_step_eq in Hstep.
    option_cases opt; cbn in Hstep; other_option; try discriminate.
    + destruct (parse_int arg); [discriminate|].
      injection Hstep as <- <-. right. now exists arg.
    + injection Hstep as <- _. left. split; [now left | reflexivity].
Qed.


(** ** Help and failure *)

(** The exit status 1 of every exception but [SystemExit]. *)
Lemma exit_status_plain (e : exn) :
  plain e -> exit_status (Err e : result settings) = 1.
Proof. destruct e; try reflexivity. intros H. now destruct (H code). Qed.

(** After the loop: whatever leaves the mandatory-option check, the
    reading of the four variables or [check_options] satisfies [E],
    when the plain exceptions and [SystemExit 1] do. *)
Lemma throws_bind_if (E : exn -> Prop) (l : locals) w e w' :
  (forall e, plain e -> E e) -> E (SystemExit 1) ->
  (if negb (mandatory_checks l =? 4)
   then print msg_mandatory ;;; print usage ;;; sys_exit 1
   else check_and_return l) w = (Err e, w') -> E e.
Proof.
  intros Hplain Hexit. revert w e w'.
  change (throws E (if negb (mandatory_checks l =? 4)
                    then print msg_mandatory ;;; print usage ;;; sys_exit 1
                    else check_and_return l)).
  destruct (negb (mandatory_checks l =? 4)).
  - repeat first [ apply throws_print | apply throws_raise; exact Hexit
                 | apply throws_bind; [|intros ?] ].
  - unfold check_and_return, read_local.
    repeat first
      [ apply throws_ret | apply throws_check_options; assumption
      | apply throws_raise; apply Hplain; intros code; discriminate
      | apply throws_bind; [|intros ?]
      | match goal with
        | |- throws _ (match ?v with Some _ => _ | None => _ end) => destruct v
        end ].
Qed.

(** C6 fails at a command line with a chunk size that is no integer
    before the [-h]: [int] raises, the usage text is not printed and
    the status is 1.  It fails as well at a command line with [-h]
    and an option that [getopt] does not know: [getopt] raises before
    the loop over the options is entered. *)
Lemma process_options_help_after_bad_chunk_size :
  process_options bad_chunk_then_help sample_world =
    (Err (ValueError "abc"), sample_world) /\
  exit_status (fst (process_options bad_chunk_then_help sample_world)) = 1 /\
  process_options_argv argv_bad_chunk_then_help sample_world =
    (Err (ValueError "abc"), sample_world) /\
  exit_status (fst (process_options_argv argv_bad_chunk_then_help
                      sample_world)) = 1 /\
  process_options_argv argv_help_unknown_option sample_world =
    (Err unknown_option, sample_world) /\
  exit_status (fst (process_options_argv argv_help_unknown_option
                      sample_world)) = 1.
Proof. repeat split; vm_compute; reflexivity. Qed.

Lemma process_options_at_help pre arg post w :
  ~ In "-h" (names pre) -> chunk_sizes_parse pre ->
  process_options (pre ++ ("-h", arg) :: post)%list w =
  (Err (SystemExit 0), with_stdout (stdout w ++ [Print usage]) w).
Proof.
  intros Hnh Hcs.
  destruct (option_loop_total pre initial_locals w Hnh Hcs) as [l Hloop].
  unfold process_options. apply bind_err.
  rewrite option_loop_app, (bind_ok _ _ _ _ _ Hloop).
  simpl. apply bind_err. rewrite option_step_eq. reflexivity.
Qed.

(** After [getopt]: a [-h] that the loop reaches gives the usage text
    and status 0; without [-h] every failure gives status 1. *)
Lemma help_and_failure_on_options options w :
  (forall pre arg post,
     options = (pre ++ ("-h", arg) :: post)%list ->
     ~ In "-h" (names pre) -> chunk_sizes_parse pre ->
     process_options options w =
       (Err (SystemExit 0), with_stdout (stdout w ++ [Print usage]) w) /\
     exit_status (fst (process_options options w)) = 0) /\
  (~ In "-h" (names options) ->
   forall e w', process_options options w = (Err e, w') ->
     exit_status (fst (process_options options w)) = 1).
Proof.
  split.
  - intros pre arg post -> Hnh Hcs.
    rewrite (process_options_at_help pre arg post w Hnh Hcs).
    split; reflexivity.
  - intros Hnh e w' Hrun. rewrite Hrun. simpl fst.
    revert Hrun. unfold process_options. unfold bind at 1.
    destruct (option_loop initial_locals options w) as [[l|e1] w1] eqn:Hloop.
    + apply (throws_bind_if (fun e => exit_status (Err e : result settings) = 1)).
      * apply exit_status_plain.
      * reflexivity.
    + intros [= <- <-].
      destruct (option_loop_raises _ _ _ _ _ Hloop) as [[Hin _] | (a & -> & _)];
        [contradiction | reflexivity].
Qed.


(** C6, amended: when [getopt] takes the command line, [-h] is among
    the options and [int] converts every chunk size before the first
    [-h], the usage text is printed and the status is 0.  When [getopt]
    refuses the command line the status is 1, and when it takes a
    command line without [-h], whose chunk sizes are ASCII strings of
    at most 4300 characters, every run that does not return ends with
    status 1. *)
Theorem help_and_failure_exit_status argv w :
  (forall options pre arg post,
     accepted argv options ->
     options = (pre ++ ("-h", arg) :: post)%list ->
     ~ In "-h" (names pre) -> chunk_sizes_convert pre ->
     process_options_argv argv w =
       (Err (SystemExit 0), with_stdout (stdout w ++ [Print usage]) w) /\
     exit_status (fst (process_options_argv argv w)) = 0) /\
  (forall e, getopt argv shortopts longopts = Err e ->
     process_options_argv argv w = (Err e, w) /\
     exit_status (fst (process_options_argv argv w)) = 1) /\
  (forall options,
     accepted argv options -> ~ In "-h" (names options) ->
     chunk_sizes_ascii options ->
     forall e w', process_options_argv argv w = (Err e, w') ->
       exit_status (fst (process_options_argv argv w)) = 1).
Proof.
  split; [|split].
  - intros options pre arg post Hacc Heq Hnh Hcs.
    rewrite (process_options_argv_accepted _ _ w Hacc).
    apply (proj1 (help_and_failure_on_options options w) pre arg post Heq Hnh).
    now apply chunk_sizes_convert_parse.
  - intros e Hget.
    rewrite (process_options_argv_refused _ _ w Hget).
    split; [reflexivity|].
    destruct (getopt_raises _ _ _ _ Hget) as (msg & o & ->). reflexivity.
  - intros options Hacc Hnh _ e w'.
    rewrite (process_options_argv_accepted _ _ w Hacc).
    apply (proj2 (help_and_failure_on_options options w) Hnh).
Qed.

Lemma help_and_failure_exit_status_witness :
  (process_options_argv argv_help_then_more sample_world =
     (Err (SystemExit 0),
      with_stdout (stdout sample_world ++ [Print usage]) sample_world) /\
   exit_status (fst (process_options_argv argv_help_then_more sample_world))
     = 0) /\
  (process_options_argv argv_help_unknown_option sample_world =
     (Err unknown_option, sample_world) /\
   exit_status (fst (process_options_argv argv_help_unknown_option
                       sample_world)) = 1) /\
  exit_status (fst (process_options_argv argv_input1_only sample_world)) = 1.
Proof.
  split; [|split].
  - apply (proj1 (help_and_failure_exit_status argv_help_then_more
                    sample_world)
             (sample_options ++ ("-h", EmptyString) :: input1_only)%list
             sample_options EmptyString input1_only).
    + exists []. vm_compute. reflexivity.
    + reflexivity.
    + exact (proj1 sample_options_clean).
    + exact sample_options_convert.
  - apply (proj1 (proj2 (help_and_failure_exit_status
                           argv_help_unknown_option sample_world))).
    vm_compute. reflexivity.
  - apply (proj2 (proj2 (help_and_failure_exit_status argv_input1_only
                           sample_world))
             input1_only argv_input1_only_accepted
             (proj1 input1_only_clean) input1_only_ascii (SystemExit 1)
             (with_stdout (stdout sample_world
                           ++ [Print msg_mandatory; Print usage])
                          sample_world)).
    vm_compute. reflexivity.
Defined.

(** ** A chunk size that is no integer *)








(** ** The scan of a listing, entry by entry *)

Lemma sndhdr_what_world path w r w' : sndhdr_what path w = (r, w') -> w' = w.
Proof.
  unfold sndhdr_what.
  destruct (fs w !! path) as [[?|?]|]; now intros [= _ <-].
Qed.

(** X5: what the scan of a listing tells.  It leaves the world as it
    is.  It ends by [break] at the first entry at which [sndhdr.what]
    does not return a header that is no wav, or none, when a wav
    header is returned there; it ends in the exception that
    [sndhdr.what] raises at that entry, when it raises one; and it
    runs into the [else] clause when there is no such entry. *)
Theorem scan_for_wav_outcome dir entries w r w' :
  scan_for_wav dir entries w = (r, w') ->
  w' = w /\
  match r with
  | Ok true =>
      exists pre f post hdr,
        entries = (pre ++ f :: post)%list /\
        Forall (passed_over w dir) pre /\
        sndhdr_what (join dir f) w = (Ok hdr, w) /\ is_wav hdr = true
  | Ok false => Forall (passed_over w dir) entries
  | Err e =>
      exists pre f post,
        entries = (pre ++ f :: post)%list /\
        Forall (passed_over w dir) pre /\
        sndhdr_what (join dir f) w = (Err e, w)
  end.
Proof.
  intros Hrun.
  pose proof (scan_for_wav_world dir entries w) as Hw.
  rewrite Hrun in Hw. simpl in Hw. subst w'.
  split; [reflexivity|].
  revert r Hrun.
  induction entries as [|f rest IH]; intros r Hrun.
  - injection Hrun as <-. constructor.
  - cbn [scan_for_wav] in Hrun.
    destruct (sndhdr_what (join dir f) w) as [[hdr|e] w1] eqn:Hf.
    + pose proof (sndhdr_what_world _ _ _ _ Hf) as ->.
      rewrite (bind_ok _ _ _ _ _ Hf) in Hrun.
      assert (Hgo : is_wav hdr = false ->
                    scan_for_wav dir rest w = (r, w) ->
                    match r with
                    | Ok true =>
                        exists pre g post hdr',
                          f :: rest = (pre ++ g :: post)%list /\
                          Forall (passed_over w dir) pre /\
                          sndhdr_what (join dir g) w = (Ok hdr', w) /\
                          is_wav hdr' = true
                    | Ok false => Forall (passed_over w dir) (f :: rest)
                    | Err e =>
                        exists pre g post,
                          f :: rest = (pre ++ g :: post)%list /\
                          Forall (passed_over w dir) pre /\
                          sndhdr_what (join dir g) w = (Err e, w)
                    end).
      { intros Hno Hrest.
        assert (Hf' : passed_over w dir f) by (exists hdr; now split).
        specialize (IH r Hrest).
        destruct r as [[|]|e].
        - destruct IH as (pre & g & post & hdr' & -> & Hpre & Hg & Hw).
          exists (f :: pre), g, post, hdr'.
          repeat split; [now constructor | assumption..].
        - now constructor.
        - destruct IH as (pre & g & post & -> & Hpre & Hg).
          exists (f :: pre), g, post.
          repeat split; [now constructor | assumption]. }
      destruct hdr as [h|]; [|now apply Hgo].
      destruct (String.eqb (filetype h) "wav") eqn:Hwav; [|now apply Hgo].
      injection Hrun as <-.
      exists [], f, rest, (Some h). repeat split; [constructor | exact Hf | exact Hwav].
    + pose proof (sndhdr_what_world _ _ _ _ Hf) as ->.
      rewrite (bind_err _ _ _ _ _ Hf) in Hrun. injection Hrun as <-.
      exists [], f, rest. repeat split; [constructor | exact Hf].
Qed.

Lemma scan_for_wav_outcome_witness :
  sample_world = sample_world /\
  exists pre f post hdr,
    ["notes.txt"; "a.wav"] = (pre ++ f :: post)%list /\
    Forall (passed_over sample_world "target") pre /\
    sndhdr_what (join "target" f) sample_world = (Ok hdr, sample_world) /\
    is_wav hdr = true.
Proof.
  apply (scan_for_wav_outcome "target" ["notes.txt"; "a.wav"] sample_world
           (Ok true) sample_world).
  vm_compute. reflexivity.
Defined.

(** ** What a run of [check_options] tells *)

Lemma scan_for_wav_true dir entries w w' :
  scan_for_wav dir entries w = (Ok true, w') ->
  exists f hdr, In f entries /\ fs w !! join dir f = Some (File hdr) /\
                is_wav hdr = true.
Proof.
  induction entries as [|f rest IH]; simpl; [discriminate|].
  unfold bind, sndhdr_what.
  destruct (fs w !! join dir f) as [[es|[h|]]|] eqn:Hf; try discriminate.
  - destruct (String.eqb (filetype h) "wav") eqn:Hwav.
    + intros _. exists f, (Some h). repeat split; [now left | assumption..].
    + intros Hrun. destruct (IH Hrun) as (g & hdr & Hin & Hg & Hw).
      exists g, hdr. repeat split; [now right | assumption..].
  - intros Hrun. destruct (IH Hrun) as (g & hdr & Hin & Hg & Hw).
    exists g, hdr. repeat split; [now right | assumption..].
Qed.

(** Inversion of a run of [check_options], lookup by lookup. *)
Ltac invert_run H :=
  repeat (cbn [negb fs stdout uncreatable with_stdout with_fs] in H;
          cbv beta iota in H;
          match type of H with
          | context [match fs ?w0 !! ?p with _ => _ end] =>
              let E := fresh "Efs" in
              destruct (fs w0 !! p) as [[?|?]|] eqn:E
          | context [scan_for_wav ?d ?es ?w0] =>
              let Hs := fresh "Hscan" in
              let b := fresh "b" in
              destruct (scan_for_wav_run d es w0) as [[b Hs] | (? & Hs & ?)];
              rewrite Hs in H; [destruct b|]
          | context [decide (?p ∈ ?s)] =>
              destruct (decide (p ∈ s))
          | context [(?n <? 10) || (?n >? 1000)] =>
              let E := fresh "Erange" in
              destruct ((n <? 10) || (n >? 1000)) eqn:E
          | context [match ?cs with PyNone => _ | _ => _ end] => destruct cs
          end);
  cbn [negb fs stdout uncreatable with_stdout with_fs] in H; cbv beta iota in H.


(** The shape of every run of [check_options]: what it may change,
    what it may print, and how it may end. *)
Lemma check_options_shape d1 d2 out cs u w r w' :
  check_options d1 d2 out cs u w = (r, w') ->
  uncreatable w' = uncreatable w /\
  (fs w' = fs w \/
   (~ is_directory (fs w) out /\ fs w' = <[out := Dir []]> (fs w) /\
    fs w !! out = None /\ out ∉ uncreatable w)) /\
  exists evs, stdout w' = (stdout w ++ evs)%list /\
    match r with
    | Ok _ =>
        evs = [] /\ holds_wav (fs w) d1 /\ holds_wav (fs w) d2 /\
        (exists n, cs = PyInt n /\ 10 <= n <= 1000) /\
        is_directory (fs w') out
    | Err (SystemExit code) =>
        code = 1 /\ is_directory (fs w) d1 /\ is_directory (fs w) d2 /\
        exists ds, evs = (ds ++ [Print u])%list /\ ds <> []
    | Err _ =>
        fs w' = fs w /\
        Forall (fun ev => In ev [Print msg_no_dir1; Print msg_no_dir2;
                                 Print msg_no_wavs1]) evs
    end.
Proof.
  intros Hrun.
  unfold check_options, bind, isdir, listdir, makedirs, try_except, print,
    print_exc, sys_exit, raise, ret in Hrun.
  invert_run Hrun;
    injection Hrun as <- <-;
    try match goal with
        | Hp : forall code, ?x <> SystemExit code |- _ =>
            destruct x; try (now destruct (Hp code))
        end;
    try match goal with
        | Hb : (Z.b2z ?b <? 10) || _ = false |- _ => destruct b; discriminate Hb
        end;
    (split; [reflexivity|]);
    (split;
     [ first [ left; reflexivity
             | right; split; [intros [? ?]; congruence|];
               split; [reflexivity|];
               split; first [ assumption | reflexivity ]
             | exfalso; congruence ] |]);
    cbn [stdout with_stdout with_fs fs];
    rewrite <- ?app_assoc;
    first [ eexists; split; [reflexivity|]
          | exists []; split; [now rewrite app_nil_r|] ];
    cbv beta iota;
    try (split; [reflexivity | now repeat constructor; cbn; tauto]);
    try (split; [reflexivity | repeat constructor; cbn; tauto]);
    try (split; [reflexivity|]; split; [eexists; eassumption|];
         split; [eexists; eassumption|];
         rewrite ?app_assoc; eexists; split; [reflexivity | cbn; discriminate]);
    try (split; [reflexivity|];
         split; [|split; [|split; [|
           first [ eexists; eassumption
                 | eexists; apply lookup_insert_eq ] ]]];
         match goal with
         | |- holds_wav _ ?d =>
             match goal with
             | Hs : scan_for_wav d ?es _ = (Ok true, _),
               Hd : fs _ !! d = Some (Dir ?es) |- _ =>
                 destruct (scan_for_wav_true _ _ _ _ Hs) as (? & ? & ? & ? & ?);
                 exists es; do 2 eexists; repeat split; eassumption
             end
         | |- exists n, PyInt ?m = PyInt n /\ _ =>
             exists m; split; [reflexivity | lia]
         end).
Qed.

(** X1: a run of [check_options] that returns has found a wav in each
    input directory and an integer chunk size in 10..1000, leaves the
    output path a directory, and has printed nothing. *)
Theorem check_options_returns_valid d1 d2 out cs u w w' :
  check_options d1 d2 out cs u w = (Ok tt, w') ->
  holds_wav (fs w) d1 /\ holds_wav (fs w) d2 /\
  (exists n, cs = PyInt n /\ 10 <= n <= 1000) /\
  is_directory (fs w') out /\ stdout w' = stdout w.
Proof.
  intros Hrun.
  destruct (check_options_shape _ _ _ _ _ _ _ _ Hrun)
    as (_ & _ & evs & Hout & -> & H1 & H2 & Hn & Hdir).
  rewrite app_nil_r in Hout. repeat split; assumption.
Qed.

Lemma check_options_returns_valid_witness :
  holds_wav (fs sample_world) "target" /\ holds_wav (fs sample_world) "donor" /\
  (exists n, PyInt 100 = PyInt n /\ 10 <= n <= 1000) /\
  is_directory (fs sample_world) "out" /\
  stdout sample_world = stdout sample_world.
Proof.
  apply (check_options_returns_valid "target" "donor" "out" (PyInt 100) usage
           sample_world sample_world).
  vm_compute. reflexivity.
Defined.

(** X2: when [check_options] leaves through [sys.exit], the code is 1,
    both input paths are directories, and what was printed is at least
    one diagnostic followed, last of all, by the usage text. *)
Theorem check_options_exit_explained d1 d2 out cs u w code w' :
  check_options d1 d2 out cs u w = (Err (SystemExit code), w') ->
  code = 1 /\ is_directory (fs w) d1 /\ is_directory (fs w) d2 /\
  exists ds, ds <> [] /\ stdout w' = (stdout w ++ ds ++ [Print u])%list.
Proof.
  intros Hrun.
  destruct (check_options_shape _ _ _ _ _ _ _ _ Hrun)
    as (_ & _ & evs & Hout & Hcode & Hd1 & Hd2 & ds & -> & Hds).
  repeat split; try assumption. now exists ds.
Qed.

Lemma check_options_exit_explained_witness :
  1 = 1 /\ is_directory (fs sample_world) "texts" /\
  is_directory (fs sample_world) "donor" /\
  exists ds, ds <> [] /\
    stdout (with_stdout [Print msg_no_wavs1; Print msg_chunk_range; Print usage]
                        sample_world)
    = (stdout sample_world ++ ds ++ [Print usage])%list.
Proof.
  apply (check_options_exit_explained "texts" "donor" "out" (PyInt 5) usage
           sample_world 1
           (with_stdout [Print msg_no_wavs1; Print msg_chunk_range; Print usage]
                        sample_world)).
  vm_compute. reflexivity.
Defined.

(** X4: when one of the two input paths is no directory, the run of
    [check_options] ends in an exception other than [SystemExit]; the
    file system is as before, and nothing was printed but messages
    about the missing directories and about wavs missing in the first
    one. *)
Theorem check_options_missing_input_crashes d1 d2 out cs u w :
  ~ is_directory (fs w) d1 \/ ~ is_directory (fs w) d2 ->
  exists e w' evs,
    check_options d1 d2 out cs u w = (Err e, w') /\ plain e /\
    fs w' = fs w /\ stdout w' = (stdout w ++ evs)%list /\
    Forall (fun ev => In ev [Print msg_no_dir1; Print msg_no_dir2;
                             Print msg_no_wavs1]) evs.
Proof.
  intros Hmiss.
  destruct (check_options d1 d2 out cs u w) as [r w'] eqn:Hrun.
  destruct (check_options_shape _ _ _ _ _ _ _ _ Hrun)
    as (_ & _ & evs & Hout & Hr).
  destruct r as [[]|e].
  - destruct Hr as (_ & (es1 & _ & _ & Hd1 & _) & (es2 & _ & _ & Hd2 & _) & _).
    assert (is_directory (fs w) d1) by now exists es1.
    assert (is_directory (fs w) d2) by now exists es2.
    tauto.
  - exists e, w', evs.
    destruct e; try (destruct Hr as [Hfs Hevs];
                     repeat split; try assumption; intros c; discriminate).
    destruct Hr as (_ & Hd1 & Hd2 & _). tauto.
Qed.

Lemma check_options_missing_input_crashes_witness :
  exists e w' evs,
    check_options "missing" "donor" "out" (PyInt 100) usage sample_world
      = (Err e, w') /\ plain e /\
    fs w' = fs sample_world /\ stdout w' = (stdout sample_world ++ evs)%list /\
    Forall (fun ev => In ev [Print msg_no_dir1; Print msg_no_dir2;
                             Print msg_no_wavs1]) evs.
Proof.
  apply (check_options_missing_input_crashes "missing" "donor" "out"
           (PyInt 100) usage sample_world).
  left. intros [es Hes]. vm_compute in Hes. discriminate Hes.
Defined.


(** ** What [check_options] leaves behind *)



(** ** Configurations whose input directories can be scanned *)

Lemma listdir_ok dir w entries w' :
  listdir dir w = (Ok entries, w') -> fs w !! dir = Some (Dir entries).
Proof.
  unfold listdir. destruct (fs w !! dir) as [[es|hdr]|]; try discriminate.
  now intros [= ->].
Qed.

Lemma sndhdr_what_ok path w hdr w' :
  sndhdr_what path w = (Ok hdr, w') -> fs w !! path = Some (File hdr).
Proof.
  unfold sndhdr_what. destruct (fs w !! path) as [[es|h]|]; try discriminate.
  now intros [= ->].
Qed.

Lemma scannable_scan w dir entries w0 :
  fs w0 = fs w ->
  Forall (fun f => exists hdr, sndhdr_what (join dir f) w = (Ok hdr, w))
         entries ->
  scan_for_wav dir entries w0 = (Ok (existsb (wav_entry w dir) entries), w0).
Proof.
  intros Hfs.
  induction 1 as [|f rest (hdr & Hf) _ IH]; simpl; [reflexivity|].
  unfold wav_entry at 1. rewrite Hf. cbn [fst].
  apply sndhdr_what_ok in Hf.
  erewrite bind_ok by (unfold sndhdr_what; rewrite Hfs, Hf; reflexivity).
  destruct hdr as [h|]; simpl; [|exact IH].
  destruct (String.eqb (filetype h) "wav"); [reflexivity | exact IH].
Qed.

(** X3: when both input directories can be listed and [sndhdr.what]
    returns at each of their entries, [check_options] reports every
    problem of the configuration, in the order of its checks: no wav
    in directory 1, no wav in directory 2, the exception that
    [os.makedirs] raised, the message about the chunk size; and the
    usage text after them.  It returns when there is none and leaves
    through [sys.exit(1)] otherwise. *)
Theorem check_options_reports_all d1 d2 out cs u w :
  scannable w d1 -> scannable w d2 ->
  exists w',
    check_options d1 d2 out cs u w =
      (match problems w d1 d2 out cs with
       | [] => Ok tt
       | _ => Err (SystemExit 1)
       end, w') /\
    stdout w' =
      (stdout w ++ problems w d1 d2 out cs ++
       match problems w d1 d2 out cs with
       | [] => []
       | _ => [Print u]
       end)%list.
Proof.
  intros (es1 & Hl1 & Hes1) (es2 & Hl2 & Hes2).
  unfold problems, has_wav, output_problems. rewrite Hl1, Hl2. cbn [fst].
  pose proof (listdir_ok _ _ _ _ Hl1) as Hd1.
  pose proof (listdir_ok _ _ _ _ Hl2) as Hd2.
  unfold check_options. cbv zeta.
  post_with (apply isdir_true; eexists; exact Hd1).
  cbn [negb]. post_with reflexivity.
  post_with (apply isdir_true; eexists; exact Hd2).
  cbn [negb]. post_with reflexivity.
  post_with (exact Hl1).
  post_with (apply (scannable_scan w d1 es1 w eq_refl Hes1)).
  destruct (existsb (wav_entry w d1) es1);
    post_with reflexivity;
    (post_with (apply listdir_dir; exact Hd2));
    (post_with (apply (scannable_scan w d2 es2); [reflexivity | exact Hes2]));
    destruct (existsb (wav_entry w d2) es2);
    post_with reflexivity;
    unfold bind, isdir, makedirs, try_except, print, print_exc, sys_exit,
      raise, ret;
    cbn [fs stdout uncreatable with_stdout with_fs];
    destruct (fs w !! out) as [[sub|hdr]|] eqn:Hout;
    cbn [negb fst fs stdout uncreatable with_stdout with_fs];
    cbv beta iota; rewrite ?Hout; cbv beta iota;
    try destruct (decide (out ∈ uncreatable w)) as [Hin|Hnin];
    destruct cs as [|b|n|s]; unfold chunk_problems;
    try destruct ((n <? 10) || (n >? 1000));
    try destruct ((Z.b2z b <? 10) || (Z.b2z b >? 1000)) eqn:Hb;
    try (destruct b; discriminate Hb);
    cbn [negb fst fs stdout uncreatable with_stdout with_fs app];
    cbv beta iota;
    (eexists; split; [reflexivity|]);
    cbn [fs stdout uncreatable with_stdout with_fs app];
    rewrite <- ?app_assoc; rewrite ?app_nil_r; reflexivity.
Qed.

Lemma sample_texts_scannable : scannable sample_world "texts".
Proof.
  eexists. split; [vm_compute; reflexivity|].
  repeat constructor. eexists. vm_compute. reflexivity.
Qed.

Lemma sample_donor_scannable : scannable sample_world "donor".
Proof.
  eexists. split; [vm_compute; reflexivity|].
  repeat constructor. eexists. vm_compute. reflexivity.
Qed.

Lemma check_options_reports_all_witness :
  exists w',
    check_options "texts" "donor" "target/a.wav" (PyStr "x") usage
                  sample_world =
      (match problems sample_world "texts" "donor" "target/a.wav"
                      (PyStr "x") with
       | [] => Ok tt
       | _ => Err (SystemExit 1)
       end, w') /\
    stdout w' =
      (stdout sample_world ++
       problems sample_world "texts" "donor" "target/a.wav" (PyStr "x") ++
       match problems sample_world "texts" "donor" "target/a.wav"
                      (PyStr "x") with
       | [] => []
       | _ => [Print usage]
       end)%list.
Proof.
  apply (check_options_reports_all "texts" "donor" "target/a.wav" (PyStr "x")
           usage sample_world sample_texts_scannable sample_donor_scannable).
Defined.

Lemma sample_problems :
  problems sample_world "texts" "donor" "target/a.wav" (PyStr "x") =
  [Print msg_no_wavs1; PrintExc (FileExistsError "target/a.wav");
   Print msg_chunk_int].
Proof. vm_compute. reflexivity. Qed.

(** ** What [process_options] hands over *)



(** The locals at the end of the loop, on a command line without
    [-h] whose chunk sizes are integer literals. *)
Lemma option_loop_clean options w :
  ~ In "-h" (names options) -> chunk_sizes_parse options ->
  exists l, option_loop initial_locals options w = (Ok l, w) /\
            records initial_locals options l.
Proof.
  intros Hnh Hcs.
  destruct (option_loop_total options initial_locals w Hnh Hcs) as [l Hloop].
  exists l. split; [exact Hloop|].
  now destruct (option_loop_ok _ _ _ _ _ Hloop) as (_ & Hrec & _).
Qed.

(** After [getopt]: the check looks at the number of mandatory
    options met, repeats included. *)
Lemma count_check_on_options options w :
  ~ In "-h" (names options) -> chunk_sizes_parse options ->
  mandatory_met options <> 4 ->
  process_options options w =
    (Err (SystemExit 1),
     with_stdout (stdout w ++ [Print msg_mandatory; Print usage]) w).
Proof.
  intros Hnh Hcs Hmet.
  destruct (option_loop_clean options w Hnh Hcs) as (l & Hloop & Hrec).
  destruct Hrec as (_ & _ & _ & _ & _ & _ & _ & Hcount).
  simpl in Hcount. unfold mandatory_met in Hmet.
  unfold process_options. rewrite (bind_ok _ _ _ _ _ Hloop).
  replace (mandatory_checks l =? 4) with false
    by (symmetry; apply Z.eqb_neq; lia).
  cbn [negb]. unfold bind, print, sys_exit, raise, with_stdout. simpl.
  now rewrite <- app_assoc.
Qed.

(** After [getopt]: four mandatory options met, and one of the four
    variables bound by none of them. *)
Lemma unbound_on_options options w v :
  ~ In "-h" (names options) -> chunk_sizes_parse options ->
  mandatory_met options = 4 -> first_unbound options = Some v ->
  process_options options w = (Err (UnboundLocalError v), w).
Proof.
  intros Hnh Hcs Hmet Hv.
  destruct (option_loop_clean options w Hnh Hcs) as (l & Hloop & Hrec).
  destruct Hrec as (R1 & R2 & R3 & R4 & _ & _ & _ & Hcount).
  simpl in R1, R2, R3, R4, Hcount. unfold mandatory_met in Hmet.
  unfold process_options. rewrite (bind_ok _ _ _ _ _ Hloop).
  replace (mandatory_checks l =? 4) with true
    by (symmetry; apply Z.eqb_eq; lia).
  cbn [negb]. unfold check_and_return, first_unbound in *.
  rewrite R1, R2, R3, R4.
  destruct (last_arg "--input1" options); simpl;
    [|injection Hv as <-; reflexivity].
  destruct (last_arg "--input2" options); simpl;
    [|injection Hv as <-; reflexivity].
  destruct (last_arg "--output" options); simpl;
    [|injection Hv as <-; reflexivity].
  destruct (last_arg "--chunk_size" options) as [arg|] eqn:Hlast; simpl;
    [discriminate | injection Hv as <-; reflexivity].
Qed.

Lemma input1_repeated_clean :
  ~ In "-h" (names input1_repeated) /\ chunk_sizes_parse input1_repeated.
Proof.
  split.
  - cbn. intros [H|[H|[H|[H|[H|[]]]]]]; discriminate H.
  - intros arg [H|[H|[H|[H|[H|[]]]]]]; try discriminate H.
    injection H as <-. vm_compute. discriminate.
Qed.


Lemma input1_twice_clean :
  ~ In "-h" (names input1_twice) /\ chunk_sizes_parse input1_twice.
Proof.
  split.
  - cbn. intros [H|[H|[H|[H|[]]]]]; discriminate H.
  - intros arg [H|[H|[H|[H|[]]]]]; discriminate H.
Qed.


(** X8: on a command line that [getopt] takes, without [-h] and with
    chunk sizes that [int] converts, the mandatory-option check looks
    at one number only, how many mandatory options were met, repeats
    included: when that is not four, the error line and the usage text
    are printed and the run leaves through [sys.exit(1)], also when
    each of the four options was given. *)
Theorem mandatory_check_counts argv options w :
  accepted argv options ->
  ~ In "-h" (names options) -> chunk_sizes_convert options ->
  mandatory_met options <> 4 ->
  process_options_argv argv w =
    (Err (SystemExit 1),
     with_stdout (stdout w ++ [Print msg_mandatory; Print usage]) w).
Proof.
  intros Hacc Hnh Hcs Hmet.
  rewrite (process_options_argv_accepted _ _ w Hacc).
  apply count_check_on_options;
    [exact Hnh | now apply chunk_sizes_convert_parse | exact Hmet].
Qed.

Lemma input1_repeated_convert : chunk_sizes_convert input1_repeated.
Proof.
  intros arg [H|[H|[H|[H|[H|[]]]]]]; try discriminate H.
  injection H as <-. split; [|split].
  - apply ascii_only_check. vm_compute. reflexivity.
  - vm_compute. lia.
  - vm_compute. discriminate.
Qed.

Lemma mandatory_check_counts_witness :
  process_options_argv argv_input1_repeated sample_world =
    (Err (SystemExit 1),
     with_stdout (stdout sample_world ++ [Print msg_mandatory; Print usage])
                 sample_world).
Proof.
  apply (mandatory_check_counts argv_input1_repeated input1_repeated
           sample_world).
  - exists []. vm_compute. reflexivity.
  - exact (proj1 input1_repeated_clean).
  - exact input1_repeated_convert.
  - vm_compute. discriminate.
Defined.

(** X9: on such a command line, when four mandatory options were met
    but one of the four variables was bound by none of them,
    [process_options] passes its check and raises [UnboundLocalError]
    for the first such variable, with nothing printed and nothing
    checked. *)
Theorem process_options_unbound argv options w v :
  accepted argv options ->
  ~ In "-h" (names options) -> chunk_sizes_convert options ->
  mandatory_met options = 4 -> first_unbound options = Some v ->
  process_options_argv argv w = (Err (UnboundLocalError v), w).
Proof.
  intros Hacc Hnh Hcs Hmet Hv.
  rewrite (process_options_argv_accepted _ _ w Hacc).
  apply unbound_on_options;
    [exact Hnh | now apply chunk_sizes_convert_parse | exact Hmet | exact Hv].
Qed.

Lemma process_options_unbound_witness :
  process_options_argv argv_input1_twice sample_world =
    (Err (UnboundLocalError "chunk_size"), sample_world).
Proof.
  apply (process_options_unbound argv_input1_twice input1_twice sample_world
           "chunk_size").
  - exists []. vm_compute. reflexivity.
  - exact (proj1 input1_twice_clean).
  - intros arg [H|[H|[H|[H|[]]]]]; discriminate H.
  - vm_compute. reflexivity.
  - vm_compute. reflexivity.
Defined.

(** ** The order of the options *)

Lemma occurrences_perm name options options' :
  Permutation options options' ->
  occurrences name options' = occurrences name options.
Proof.
  induction 1 as [|[o a] l l' _ IH|[o a] [o' a'] l|l l' l'' _ IH1 _ IH2];
    simpl; [reflexivity | now rewrite IH | lia | congruence].
Qed.

Lemma last_arg_unique name arg options :
  List.NoDup (names options) -> In (name, arg) options ->
  last_arg name options = Some arg.
Proof.
  induction options as [|[o a] r IH]; simpl; [tauto|].
  intros Hnd Hin. apply NoDup_cons_iff in Hnd as [Hnin Hnd].
  destruct Hin as [[= -> ->] | Hin].
  - rewrite (last_arg_None _ _ Hnin). now rewrite String.eqb_refl.
  - now rewrite (IH Hnd Hin).
Qed.

Lemma last_arg_perm name options options' :
  Permutation options options' -> List.NoDup (names options) ->
  last_arg name options' = last_arg name options.
Proof.
  intros Hperm Hnd.
  assert (Hnames : Permutation (names options) (names options'))
    by (unfold names; now apply Permutation_map).
  assert (Hnd' : List.NoDup (names options'))
    by (eapply Permutation_NoDup; eassumption).
  destruct (last_arg name options) as [arg|] eqn:Hlast.
  - apply last_arg_unique; [exact Hnd'|].
    eapply Permutation_in; [exact Hperm|].
    now apply (last_arg_In _ _ _ Hlast).
  - apply last_arg_None. intros Hin.
    assert (Hin0 : In name (names options))
      by (eapply Permutation_in; [symmetry; exact Hnames | exact Hin]).
    destruct (last_arg_Some _ _ Hin0) as (arg & Harg & _). congruence.
Qed.

(** The locals at the end of the loop are set by what [records] says
    of them. *)
Lemma records_unique l0 options options' l l' :
  (forall name, last_arg name options' = last_arg name options) ->
  (forall name, occurrences name options' = occurrences name options) ->
  records l0 options l -> records l0 options' l' -> l' = l.
Proof.
  intros Hlast Hocc (R1 & R2 & R3 & R4 & R5 & R6 & R7 & R8)
    (S1 & S2 & S3 & S4 & S5 & S6 & S7 & S8).
  rewrite !Hlast, !Hocc in *.
  destruct l, l'. simpl in *. congruence.
Qed.

(** X10: on a command line without [-h], whose chunk sizes are integer
    literals and on which no option is given twice, the order of the
    options does not matter: [process_options] does the same on every
    rearrangement of it. *)
Theorem process_options_order_irrelevant options options' w :
  Permutation options options' -> List.NoDup (names options) ->
  ~ In "-h" (names options) -> chunk_sizes_parse options ->
  process_options options' w = process_options options w.
Proof.
  intros Hperm Hnd Hnh Hcs.
  assert (Hnh' : ~ In "-h" (names options')).
  { intros Hin. apply Hnh. unfold names in *.
    eapply Permutation_in; [|exact Hin].
    apply Permutation_map. now symmetry. }
  assert (Hcs' : chunk_sizes_parse options').
  { intros arg Hin. apply Hcs.
    eapply Permutation_in; [symmetry; exact Hperm | exact Hin]. }
  destruct (option_loop_clean options w Hnh Hcs) as (l & Hloop & Hrec).
  destruct (option_loop_clean options' w Hnh' Hcs') as (l' & Hloop' & Hrec').
  assert (l' = l) as ->.
  { eapply records_unique; [| |exact Hrec|exact Hrec'].
    - intros name. now apply last_arg_perm.
    - intros name. now apply occurrences_perm. }
  unfold process_options.
  now rewrite (bind_ok _ _ _ _ _ Hloop), (bind_ok _ _ _ _ _ Hloop').
Qed.

Lemma process_options_order_irrelevant_witness :
  process_options sample_options_reordered sample_world =
  process_options sample_options sample_world.
Proof.
  apply (process_options_order_irrelevant sample_options
           sample_options_reordered sample_world).
  - unfold sample_options, sample_options_reordered.
    apply Permutation_rev.
  - cbn. repeat constructor; cbn; intuition discriminate.
  - exact (proj1 sample_options_clean).
  - exact (proj1 (proj2 sample_options_clean)).
Defined.

(** ** Frame conversion on the common sample rates *)

(** At the common sample rates the conversion is never long and at
    most one frame short. *)
Lemma convert_ms_to_frames_within_one (chunk_size_ms fr : Z) :
  In fr standard_rates -> 10 <= chunk_size_ms <= 1000 ->
  exists frames,
    convert_ms_to_frames chunk_size_ms fr = Ok frames /\
    fr * chunk_size_ms / 1000 - 1 <= frames <= fr * chunk_size_ms / 1000.
Proof.
  intros Hfr Hms.
  assert (Hall : forallb (fun f =>
            forallb (fun k =>
              match convert_ms_to_frames (10 + Z.of_nat k) f with
              | Ok r => (f * (10 + Z.of_nat k) / 1000 - 1 <=? r)
                        && (r <=? f * (10 + Z.of_nat k) / 1000)
              | Err _ => false
              end) (seq 0 991)) standard_rates = true)
    by (vm_compute; reflexivity).
  rewrite forallb_forall in Hall.
  specialize (Hall fr Hfr). rewrite forallb_forall in Hall.
  specialize (Hall (Z.to_nat (chunk_size_ms - 10))).
  rewrite Z2Nat.id in Hall by lia.
  replace (10 + (chunk_size_ms - 10)) with chunk_size_ms in Hall by lia.
  assert (Hin : In (Z.to_nat (chunk_size_ms - 10)) (seq 0 991))
    by (apply in_seq; lia).
  specialize (Hall Hin).
  destruct (convert_ms_to_frames chunk_size_ms fr) as [frames|e] eqn:Hrun;
    [|discriminate].
  exists frames. split; [reflexivity | lia].
Qed.

(** X11: for the sample rates in common use and every chunk size of
    10..1000 ms, [convert_ms_to_frames] returns a frame count that is
    never above floor(framerate * chunk_size_ms / 1000) and at most one
    below it, and that is that floor at 8000, 11025, 16000 and 32000
    Hz. *)
Theorem convert_ms_to_frames_standard_rates (chunk_size_ms fr : Z) :
  In fr standard_rates -> 10 <= chunk_size_ms <= 1000 ->
  exists frames,
    convert_ms_to_frames chunk_size_ms fr = Ok frames /\
    fr * chunk_size_ms / 1000 - 1 <= frames <= fr * chunk_size_ms / 1000 /\
    (In fr [8000; 11025; 16000; 32000] ->
     frames = fr * chunk_size_ms / 1000).
Proof.
  intros Hfr Hms.
  destruct (convert_ms_to_frames_within_one _ _ Hfr Hms)
    as (frames & Hrun & Hbound).
  exists frames. split; [exact Hrun|]. split; [exact Hbound|].
  intros Hexact.
  pose proof (convert_ms_to_frames_exact_at chunk_size_ms fr Hexact Hms) as Hx.
  congruence.
Qed.

Lemma convert_ms_to_frames_standard_rates_witness :
  exists frames,
    convert_ms_to_frames 100 48000 = Ok frames /\
    48000 * 100 / 1000 - 1 <= frames <= 48000 * 100 / 1000 /\
    (In 48000 [8000; 11025; 16000; 32000] -> frames = 48000 * 100 / 1000).
Proof.
  apply (convert_ms_to_frames_standard_rates 100 48000).
  - cbn. tauto.
  - lia.
Defined.

(** X12: the chunk size that [process_options] hands over converts, at
    every sample rate in common use, without an exception, to a frame
    count that is positive and within one frame below floor(framerate
    * chunk_size / 1000). *)
Theorem returned_chunk_size_converts options w s w' fr :
  process_options options w = (Ok s, w') -> In fr standard_rates ->
  exists frames,
    convert_ms_to_frames (settings_chunk_size s) fr = Ok frames /\
    0 < frames /\
    fr * settings_chunk_size s / 1000 - 1 <= frames
      <= fr * settings_chunk_size s / 1000.
Proof.
  intros Hrun Hfr.
  destruct (process_options_ok _ _ _ _ Hrun)
    as (l & i1 & i2 & o & n & _ & _ & _ & _ & _ & _ & Hcheck & ->).
  destruct (check_options_shape _ _ _ _ _ _ _ _ Hcheck)
    as (_ & _ & evs & _ & _ & _ & _ & (m & [= <-] & Hrange) & _).
  unfold settings_chunk_size. simpl.
  destruct (convert_ms_to_frames_within_one n fr Hfr Hrange)
    as (frames & Hconv & Hbound).
  exists frames. split; [exact Hconv|]. split; [|exact Hbound].
  assert (8000 <= fr).
  { unfold standard_rates in Hfr. cbn in Hfr.
    repeat (destruct Hfr as [<-|Hfr]; [lia|]). contradiction. }
  assert (80 <= fr * n / 1000).
  { apply Z.div_le_lower_bound; nia. }
  lia.
Qed.

Lemma returned_chunk_size_converts_witness :
  exists frames,
    convert_ms_to_frames (settings_chunk_size sample_settings) 44100
      = Ok frames /\
    0 < frames /\
    44100 * settings_chunk_size sample_settings / 1000 - 1 <= frames
      <= 44100 * settings_chunk_size sample_settings / 1000.
Proof.
  apply (returned_chunk_size_converts sample_options sample_world
           sample_settings sample_world 44100).
  - vm_compute. reflexivity.
  - cbn. tauto.
Defined.
